(** * vmapi-resolver: a shallow embedding of [lib/resolver.js]

    The resolver polls VMAPI for the VMs matching a tag, keeps the set of
    backends it has advertised ([vmr_backends]) and emits [added] /
    [removed] events when that set changes.  The embedding follows the
    JavaScript source function by function:

    - plain JavaScript objects used as maps are association lists in
      insertion order ([obj]), which is the order [Object.keys] walks;
    - the resolver object is a record ([resolver]) threaded through every
      operation, events are returned as a list in emission order;
    - the FSM base class, the timers and the outstanding VMAPI requests
      are explicit components of that record, and the event loop is a
      [step] function over the inputs the environment can deliver;
    - [crypto.randomBytes] reads an entropy source given as a section
      variable, with the number of calls made so far kept in the state. *)

From Stdlib Require Import List String Ascii Strings.Byte Bool Arith NArith ZArith Lia.
Import ListNotations.

Local Open Scope list_scope.

(** ** JavaScript objects used as maps *)

Module Obj.

(** Own enumerable string-keyed properties, in insertion order.  The
    keys the resolver uses are twelve base64 characters, never an array
    index, so insertion order is the order [Object.keys] walks; and
    none of them names a property of [Object.prototype], so a lookup
    that misses the own properties yields [undefined]. *)
Definition obj (V : Type) : Type := list (string * V).

(** [o[k]]: [None] stands for [undefined]. *)
Fixpoint get {V} (k : string) (o : obj V) : option V :=
  match o with
  | [] => None
  | (k', v) :: o' => if String.eqb k k' then Some v else get k o'
  end.

(** [o[k] = v]: an existing property keeps its position, a new one is
    appended. *)
Fixpoint set {V} (k : string) (v : V) (o : obj V) : obj V :=
  match o with
  | [] => [(k, v)]
  | (k', v') :: o' =>
      if String.eqb k k' then (k, v) :: o' else (k', v') :: set k v o'
  end.

(** [Object.keys(o)]. *)
Definition keys {V} (o : obj V) : list string := map fst o.

End Obj.

Import Obj.

(** ** [Buffer.toString('base64')] *)

Definition b64_alphabet : string :=
  "ABCDEFGHIJKLMNOPQRSTUVWXYZabcdefghijklmnopqrstuvwxyz0123456789+/".

Definition b64_digit (n : N) : ascii :=
  match String.get (N.to_nat n) b64_alphabet with
  | Some c => c
  | None => "="%char
  end.

Fixpoint base64 (bytes : list byte) : string :=
  match bytes with
  | [] => EmptyString
  | [a] =>
      let x := Byte.to_N a in
      String (b64_digit (N.shiftr x 2))
        (String (b64_digit (N.shiftl (N.land x 3) 4)) "==")
  | [a; b] =>
      let x := Byte.to_N a in
      let y := Byte.to_N b in
      String (b64_digit (N.shiftr x 2))
        (String (b64_digit (N.lor (N.shiftl (N.land x 3) 4) (N.shiftr y 4)))
           (String (b64_digit (N.shiftl (N.land y 15) 2)) "="))
  | a :: b :: c :: rest =>
      let x := Byte.to_N a in
      let y := Byte.to_N b in
      let z := Byte.to_N c in
      String (b64_digit (N.shiftr x 2))
        (String (b64_digit (N.lor (N.shiftl (N.land x 3) 4) (N.shiftr y 4)))
           (String (b64_digit (N.lor (N.shiftl (N.land y 15) 2) (N.shiftr z 6)))
              (String (b64_digit (N.land z 63)) (base64 rest))))
  end.

(** The value of a base64 digit: its position in the alphabet. *)
Fixpoint index_of (c : ascii) (s : string) : N :=
  match s with
  | EmptyString => 0%N
  | String c' s' => if Ascii.eqb c c' then 0%N else N.succ (index_of c s')
  end.

Definition b64_index (c : ascii) : N := index_of c b64_alphabet.

(** ** Data model *)

(** What [getBackends] pushes for one matching NIC. *)
Record endpoint : Type := {
  name : string;
  address : string
}.

(** An emitted backend: [be] in [diffAndEmit]. *)
Record backend : Type := {
  be_name : string;
  be_address : string;
  be_port : Z;
  be_key : string
}.

(** The part of a VMAPI VM object that [getBackends] reads. *)
Record nic : Type := {
  nic_tag : string;
  ip : string
}.

Record vm : Type := {
  alias : string;
  nics : list nic
}.

(** What the callback given to [listVms] receives. *)
Inductive fetch_result : Type :=
| FetchErr (err : string)
| FetchOk (vms : list vm).

(** The events subscribers listen for: [emit('added', k, backend)] and
    [emit('removed', k)].  The signals the resolver sends to its own
    state machine ('startAsserted', 'stopAsserted', 'failAsserted') are
    transitions of [step] below, not events of this type. *)
Inductive event : Type :=
| EvAdded (k : string) (be : option backend)
| EvRemoved (k : string).

(** States of the FSM ([state_stopped], [state_starting], ...). *)
Inductive fsm_state_name : Type :=
| stopped
| starting
| running
| failed
| stopping.

Definition fsm_state_name_eqb (a b : fsm_state_name) : bool :=
  match a, b with
  | stopped, stopped | starting, starting | running, running
  | failed, failed | stopping, stopping => true
  | _, _ => false
  end.

(** The state function whose closure a timer or a VMAPI callback
    belongs to, together with the state handle [S] it captured. *)
Inductive origin : Type :=
| FromStarting
| FromRunning
| FromFailed.

Record closure : Type := {
  cl_origin : origin;
  cl_handle : nat
}.

(** [vmr_lastRemoved] holds keys after [diffAndEmit] and backend objects
    after [state_stopping]. *)
Inductive removed_log : Type :=
| RemovedKeys (ks : list string)
| RemovedBackends (bes : list backend).

(** A value a getter can return. *)
Inductive jsval : Type :=
| JUndefined
| JNumber (n : Z)
| JString (s : string)
| JBackend (be : backend).

Record resolver : Type := {
  (* fields set by the constructor; the port is a number that is only
     copied into the backends *)
  vmr_backend_port : Z;
  vmr_backends : obj backend;
  vmr_discovered_backends : list endpoint;
  (* null, or the time of the poll in flight; the ISO string stored by
     the source is never empty, so [Some _] is a truthy value *)
  vmr_lastPoll : option nat;
  vmr_lastBackends : obj backend;
  vmr_lastAdded : list string;
  vmr_lastRemoved : removed_log;
  (* read by getLastError, never assigned anywhere *)
  vmr_last_error : option string;
  (* the FSM base class: current state and its handle *)
  fsm_state : fsm_state_name;
  fsm_handle : nat;
  (* the event loop: live setInterval timers, outstanding listVms calls *)
  intervals : list closure;
  pending : list closure;
  (* number of randomBytes calls made so far *)
  rng : nat
}.

Definition set_backends (bs : obj backend) (r : resolver) : resolver :=
  {| vmr_backend_port := vmr_backend_port r;
     vmr_backends := bs;
     vmr_discovered_backends := vmr_discovered_backends r;
     vmr_lastPoll := vmr_lastPoll r;
     vmr_lastBackends := vmr_lastBackends r;
     vmr_lastAdded := vmr_lastAdded r;
     vmr_lastRemoved := vmr_lastRemoved r;
     vmr_last_error := vmr_last_error r;
     fsm_state := fsm_state r;
     fsm_handle := fsm_handle r;
     intervals := intervals r;
     pending := pending r;
     rng := rng r |}.

Definition set_discovered_backends (d : list endpoint) (r : resolver)
  : resolver :=
  {| vmr_backend_port := vmr_backend_port r;
     vmr_backends := vmr_backends r;
     vmr_discovered_backends := d;
     vmr_lastPoll := vmr_lastPoll r;
     vmr_lastBackends := vmr_lastBackends r;
     vmr_lastAdded := vmr_lastAdded r;
     vmr_lastRemoved := vmr_lastRemoved r;
     vmr_last_error := vmr_last_error r;
     fsm_state := fsm_state r;
     fsm_handle := fsm_handle r;
     intervals := intervals r;
     pending := pending r;
     rng := rng r |}.

Definition set_lastPoll (p : option nat) (r : resolver) : resolver :=
  {| vmr_backend_port := vmr_backend_port r;
     vmr_backends := vmr_backends r;
     vmr_discovered_backends := vmr_discovered_backends r;
     vmr_lastPoll := p;
     vmr_lastBackends := vmr_lastBackends r;
     vmr_lastAdded := vmr_lastAdded r;
     vmr_lastRemoved := vmr_lastRemoved r;
     vmr_last_error := vmr_last_error r;
     fsm_state := fsm_state r;
     fsm_handle := fsm_handle r;
     intervals := intervals r;
     pending := pending r;
     rng := rng r |}.

Definition set_lastBackends (bs : obj backend) (r : resolver) : resolver :=
  {| vmr_backend_port := vmr_backend_port r;
     vmr_backends := vmr_backends r;
     vmr_discovered_backends := vmr_discovered_backends r;
     vmr_lastPoll := vmr_lastPoll r;
     vmr_lastBackends := bs;
     vmr_lastAdded := vmr_lastAdded r;
     vmr_lastRemoved := vmr_lastRemoved r;
     vmr_last_error := vmr_last_error r;
     fsm_state := fsm_state r;
     fsm_handle := fsm_handle r;
     intervals := intervals r;
     pending := pending r;
     rng := rng r |}.

Definition set_lastAdded (a : list string) (r : resolver) : resolver :=
  {| vmr_backend_port := vmr_backend_port r;
     vmr_backends := vmr_backends r;
     vmr_discovered_backends := vmr_discovered_backends r;
     vmr_lastPoll := vmr_lastPoll r;
     vmr_lastBackends := vmr_lastBackends r;
     vmr_lastAdded := a;
     vmr_lastRemoved := vmr_lastRemoved r;
     vmr_last_error := vmr_last_error r;
     fsm_state := fsm_state r;
     fsm_handle := fsm_handle r;
     intervals := intervals r;
     pending := pending r;
     rng := rng r |}.

Definition set_lastRemoved (l : removed_log) (r : resolver) : resolver :=
  {| vmr_backend_port := vmr_backend_port r;
     vmr_backends := vmr_backends r;
     vmr_discovered_backends := vmr_discovered_backends r;
     vmr_lastPoll := vmr_lastPoll r;
     vmr_lastBackends := vmr_lastBackends r;
     vmr_lastAdded := vmr_lastAdded r;
     vmr_lastRemoved := l;
     vmr_last_error := vmr_last_error r;
     fsm_state := fsm_state r;
     fsm_handle := fsm_handle r;
     intervals := intervals r;
     pending := pending r;
     rng := rng r |}.

Definition set_fsm (s : fsm_state_name) (h : nat) (r : resolver) : resolver :=
  {| vmr_backend_port := vmr_backend_port r;
     vmr_backends := vmr_backends r;
     vmr_discovered_backends := vmr_discovered_backends r;
     vmr_lastPoll := vmr_lastPoll r;
     vmr_lastBackends := vmr_lastBackends r;
     vmr_lastAdded := vmr_lastAdded r;
     vmr_lastRemoved := vmr_lastRemoved r;
     vmr_last_error := vmr_last_error r;
     fsm_state := s;
     fsm_handle := h;
     intervals := intervals r;
     pending := pending r;
     rng := rng r |}.

Definition set_intervals (l : list closure) (r : resolver) : resolver :=
  {| vmr_backend_port := vmr_backend_port r;
     vmr_backends := vmr_backends r;
     vmr_discovered_backends := vmr_discovered_backends r;
     vmr_lastPoll := vmr_lastPoll r;
     vmr_lastBackends := vmr_lastBackends r;
     vmr_lastAdded := vmr_lastAdded r;
     vmr_lastRemoved := vmr_lastRemoved r;
     vmr_last_error := vmr_last_error r;
     fsm_state := fsm_state r;
     fsm_handle := fsm_handle r;
     intervals := l;
     pending := pending r;
     rng := rng r |}.

Definition set_pending (l : list closure) (r : resolver) : resolver :=
  {| vmr_backend_port := vmr_backend_port r;
     vmr_backends := vmr_backends r;
     vmr_discovered_backends := vmr_discovered_backends r;
     vmr_lastPoll := vmr_lastPoll r;
     vmr_lastBackends := vmr_lastBackends r;
     vmr_lastAdded := vmr_lastAdded r;
     vmr_lastRemoved := vmr_lastRemoved r;
     vmr_last_error := vmr_last_error r;
     fsm_state := fsm_state r;
     fsm_handle := fsm_handle r;
     intervals := intervals r;
     pending := l;
     rng := rng r |}.

Definition set_rng (n : nat) (r : resolver) : resolver :=
  {| vmr_backend_port := vmr_backend_port r;
     vmr_backends := vmr_backends r;
     vmr_discovered_backends := vmr_discovered_backends r;
     vmr_lastPoll := vmr_lastPoll r;
     vmr_lastBackends := vmr_lastBackends r;
     vmr_lastAdded := vmr_lastAdded r;
     vmr_lastRemoved := vmr_lastRemoved r;
     vmr_last_error := vmr_last_error r;
     fsm_state := fsm_state r;
     fsm_handle := fsm_handle r;
     intervals := intervals r;
     pending := pending r;
     rng := n |}.

(** The constructor: [opts.backend_port] is the only option the embedded
    functions read back. *)
Definition VmapiResolver (backend_port : Z) : resolver :=
  {| vmr_backend_port := backend_port;
     vmr_backends := [];
     vmr_discovered_backends := [];
     vmr_lastPoll := None;
     vmr_lastBackends := [];
     vmr_lastAdded := [];
     vmr_lastRemoved := RemovedKeys [];
     vmr_last_error := None;
     fsm_state := stopped;
     fsm_handle := 0;
     intervals := [];
     pending := [];
     rng := 0 |}.


(** ** The getters

    [count], [getLastError] and [list] only read the resolver object. *)

Module Getters.

(** [this.vmr_backends.length]: a property lookup on a plain object. *)
Definition count (r : resolver) : jsval :=
  match Obj.get "length"%string (vmr_backends r) with
  | Some be => JBackend be
  | None => JUndefined
  end.

Definition getLastError (r : resolver) : jsval :=
  match vmr_last_error r with
  | Some e => JString e
  | None => JUndefined
  end.

Definition list (r : resolver) : obj backend := vmr_backends r.

End Getters.

(** ** The resolver *)

Section Resolver.

Set Default Proof Using "Type".

(** Byte [i] of the buffer returned by the [call]-th use of
    [crypto.randomBytes]. *)
Variable entropy : nat -> nat -> byte.

(** [this.vmr_regexp.test], the regular expression built from
    [opts.tags.nic_tag]. *)
Variable nic_tag_regexp_test : string -> bool.

(** How the FSM base class treats [S.gotoState] on a handle [S] of a
    state the machine has left: [true] when it throws, [false] when it
    makes the transition all the same.  The FSM library is not part of
    this repository, so every result below holds for both. *)
Variable stale_handle_throws : bool.

Definition randomBytes (size call : nat) : list byte :=
  map (entropy call) (seq 0 size).

(** [mod_crypto.randomBytes(9).toString('base64')] *)
Definition fresh_key (call : nat) : string := base64 (randomBytes 9 call).

(** *** getBackends *)

(** The list handed to the callback when [listVms] succeeds. *)
Definition discovered (vms : list vm) : list endpoint :=
  flat_map
    (fun v =>
       map (fun n => {| name := alias v; address := ip n |})
         (filter (fun n => nic_tag_regexp_test (nic_tag n)) (nics v)))
    vms.

(** [getBackends(cb)] only issues the request; [cb] runs when the
    environment delivers the answer. *)
Definition getBackends (cb : closure) (r : resolver) : resolver :=
  set_pending (pending r ++ [cb]) r.

(** *** diffAndEmit *)

Definition same_endpoint (old_backend : backend) (e : endpoint) : bool :=
  String.eqb (be_address old_backend) (address e)
  && String.eqb (be_name old_backend) (name e).

(** The inner [forEach] over [Object.keys(self.vmr_backends)]: the
    result is [Some key] when [found] ends up true, [key] being the
    last one whose backend matches. *)
Definition find_key (old : obj backend) (e : endpoint) : option string :=
  fold_left
    (fun found key =>
       match Obj.get key old with
       | Some old_backend =>
           if same_endpoint old_backend e then Some key else found
       | None => found
       end)
    (Obj.keys old) None.

Definition mk_backend (port : Z) (e : endpoint) (key : string) : backend :=
  {| be_name := name e; be_address := address e;
     be_port := port; be_key := key |}.

(** The local variables the outer [forEach] updates. *)
Record diff_locals : Type := {
  added : list string;
  new_backends : obj backend;
  calls : nat
}.

Definition diff_step (port : Z) (old : obj backend)
    (l : diff_locals) (e : endpoint) : diff_locals :=
  match find_key old e with
  | Some key =>
      {| added := added l;
         new_backends := Obj.set key (mk_backend port e key) (new_backends l);
         calls := calls l |}
  | None =>
      let key := fresh_key (calls l) in
      {| added := added l ++ [key];
         new_backends := Obj.set key (mk_backend port e key) (new_backends l);
         calls := S (calls l) |}
  end.

Definition diff_loop (port : Z) (old : obj backend) (d : list endpoint)
    (calls0 : nat) : diff_locals :=
  fold_left (diff_step port old) d
    {| added := []; new_backends := []; calls := calls0 |}.

Definition is_undefined {V} (v : option V) : bool :=
  match v with None => true | Some _ => false end.

Definition diff_removed (old new : obj backend) : list string :=
  filter (fun k => is_undefined (Obj.get k new)) (Obj.keys old).

Definition diff_events (l : diff_locals) (removed : list string)
  : list event :=
  map (fun k => EvAdded k (Obj.get k (new_backends l))) (added l)
  ++ map EvRemoved removed.

Definition diffAndEmit (r : resolver) : resolver * list event :=
  let l := diff_loop (vmr_backend_port r) (vmr_backends r)
             (vmr_discovered_backends r) (rng r) in
  let removed := diff_removed (vmr_backends r) (new_backends l) in
  let r1 :=
    if (0 <? List.length (added l)) || (0 <? List.length removed)
    then set_lastBackends (vmr_backends r) r else r in
  (set_rng (calls l)
     (set_lastRemoved (RemovedKeys removed)
        (set_lastAdded (added l)
           (set_backends (new_backends l) r1))),
   diff_events l removed).

(** *** Reading [diffAndEmit]'s loop

    The functions below describe the loop of [diffAndEmit] one piece at
    a time; [diff_loop_fold] relates them to the loop itself. *)

(** The [(name, address)] pair of an emitted backend. *)
Definition endpoint_of (be : backend) : endpoint :=
  {| name := be_name be; address := be_address be |}.

(** The key each discovered endpoint is stored under, in order. *)
Fixpoint assign (old : obj backend) (calls0 : nat) (d : list endpoint)
  : list (string * endpoint) :=
  match d with
  | [] => []
  | e :: d' =>
      match find_key old e with
      | Some key => (key, e) :: assign old calls0 d'
      | None => (fresh_key calls0, e) :: assign old (S calls0) d'
      end
  end.

(** The assignments [new_backends[be.key] = be], in order. *)
Definition install (port : Z) (a : list (string * endpoint))
    (nb : obj backend) : obj backend :=
  fold_left
    (fun nb ke => Obj.set (fst ke) (mk_backend port (snd ke) (fst ke)) nb)
    a nb.

(** The discovered endpoints for which [found] stays false. *)
Definition unknown (old : obj backend) (d : list endpoint) : list endpoint :=
  filter (fun e => is_undefined (find_key old e)) d.

(** No [added] event after a [removed] one. *)
Fixpoint added_first (evs : list event) : bool :=
  match evs with
  | [] => true
  | EvAdded _ _ :: evs' => added_first evs'
  | EvRemoved _ :: evs' =>
      forallb (fun ev => match ev with EvRemoved _ => true | _ => false end)
        evs'
  end.

(** How often [e] occurs in a discovery result. *)
Definition endpoint_eqb (e1 e2 : endpoint) : bool :=
  String.eqb (name e1) (name e2) && String.eqb (address e1) (address e2).

Definition occurrences (e : endpoint) (d : list endpoint) : nat :=
  List.length (filter (endpoint_eqb e) d).

(** [k] comes before [k'] in the order [Object.keys] walks. *)
Definition precedes (k k' : string) (ks : list string) : Prop :=
  exists l1 l2 l3, ks = l1 ++ k :: l2 ++ k' :: l3.

(** *** The states *)

(** [state_stopping], up to the [S.immediate] call: one [removed] per
    key of [vmr_backends], carrying the [key] field of its backend. *)
Definition state_stopping (r : resolver) : resolver * list event :=
  let to_remove :=
    flat_map
      (fun be => match Obj.get be (vmr_backends r) with
                 | Some b => [b]
                 | None => []
                 end)
      (Obj.keys (vmr_backends r)) in
  (set_backends [] (set_lastRemoved (RemovedBackends to_remove) r),
   map (fun b => EvRemoved (be_key b)) to_remove).

(** Entering a state: the machine gets a fresh handle and runs the
    state function.  Listeners registered with [S.on] and callbacks
    registered with [S.immediate] belong to the handle and are gone
    once the state is left; timers made with [setInterval] and
    requests in flight are not. *)
Definition enter (s : fsm_state_name) (r : resolver)
  : resolver * list event :=
  let h := S (fsm_handle r) in
  let r := set_fsm s h r in
  match s with
  | stopped => (r, [])
  | starting =>
      (getBackends {| cl_origin := FromStarting; cl_handle := h |} r, [])
  | running =>
      let (r', evs) := diffAndEmit r in
      (set_intervals
         (intervals r' ++ [{| cl_origin := FromRunning; cl_handle := h |}])
         r',
       evs)
  | failed =>
      (set_intervals
         (intervals r ++ [{| cl_origin := FromFailed; cl_handle := h |}])
         r,
       [])
  | stopping => state_stopping r
  end.

(** What running a callback to its end leaves behind. *)
Inductive outcome : Type :=
| Returned (r : resolver) (evs : list event)
| Threw (r : resolver) (evs : list event).

Definition outcome_state (o : outcome) : resolver :=
  match o with Returned r _ | Threw r _ => r end.

Definition outcome_events (o : outcome) : list event :=
  match o with Returned _ evs | Threw _ evs => evs end.

(** [S.gotoState(s)] through the handle [h]. *)
Definition gotoState (h : nat) (s : fsm_state_name) (r : resolver)
  : outcome :=
  if (h =? fsm_handle r) || negb stale_handle_throws
  then let (r', evs) := enter s r in Returned r' evs
  else Threw r [].

(** [clearInterval] of the timer made under handle [h]. *)
Definition clearInterval (h : nat) (r : resolver) : resolver :=
  set_intervals
    (filter (fun c => negb (cl_handle c =? h)) (intervals r)) r.

Definition isInState (s : fsm_state_name) (r : resolver) : bool :=
  fsm_state_name_eqb (fsm_state r) s.

(** The function given to [setInterval] in [state_running] and in
    [state_failed]. *)
Definition on_tick (c : closure) (now : nat) (r : resolver) : outcome :=
  match vmr_lastPoll r with
  | Some _ => Returned r []
  | None => Returned (getBackends c (set_lastPoll (Some now) r)) []
  end.

(** The callbacks given to [getBackends]. *)
Definition on_fetched (c : closure) (res : fetch_result) (r : resolver)
  : outcome :=
  match cl_origin c with
  | FromStarting =>
      match res with
      | FetchErr _ =>
          (* self.emit('failAsserted'): heard while in 'starting' *)
          if isInState starting r
          then gotoState (fsm_handle r) failed r
          else Returned r []
      | FetchOk vms =>
          gotoState (cl_handle c) running
            (set_discovered_backends (discovered vms) r)
      end
  | FromRunning =>
      let r := set_lastPoll None r in
      match res with
      | FetchErr _ => Returned r []
      | FetchOk vms =>
          let (r', evs) :=
            diffAndEmit (set_discovered_backends (discovered vms) r) in
          Returned r' evs
      end
  | FromFailed =>
      let r := set_lastPoll None r in
      match res with
      | FetchErr _ => Returned r []
      | FetchOk vms =>
          gotoState (cl_handle c) running
            (set_discovered_backends (discovered vms)
               (clearInterval (cl_handle c) r))
      end
  end.

(** *** The public interface *)

(** [start()]: the assertion, then 'startAsserted', which the
    'stopped' state answers with [S.gotoState('starting')]. *)
Definition start (r : resolver) : outcome :=
  if isInState stopped r
  then gotoState (fsm_handle r) starting r
  else Threw r [].

(** [stop()]: the assertion, then 'stopAsserted', which 'running' and
    'failed' answer by clearing their timer and going to 'stopping'. *)
Definition stop (r : resolver) : outcome :=
  if isInState running r || isInState failed r
  then gotoState (fsm_handle r) stopping (clearInterval (fsm_handle r) r)
  else Threw r [].

(** *** The event loop *)

Inductive input : Type :=
| Start
| Stop
| Immediate
| Tick (n : nat) (now : nat)
| Fetched (n : nat) (res : fetch_result).

Fixpoint remove_nth {A} (n : nat) (l : list A) : list A :=
  match n, l with
  | _, [] => []
  | O, _ :: l' => l'
  | S n', x :: l' => x :: remove_nth n' l'
  end.

(** One turn of the event loop; [None] when the environment cannot
    deliver that input (no such timer, no such request, no immediate
    scheduled). *)
Definition step (r : resolver) (i : input) : option outcome :=
  match i with
  | Start => Some (start r)
  | Stop => Some (stop r)
  | Immediate =>
      if isInState stopping r
      then Some (gotoState (fsm_handle r) stopped r)
      else None
  | Tick n now =>
      match nth_error (intervals r) n with
      | Some c => Some (on_tick c now r)
      | None => None
      end
  | Fetched n res =>
      match nth_error (pending r) n with
      | Some c =>
          Some (on_fetched c res (set_pending (remove_nth n (pending r)) r))
      | None => None
      end
  end.

(** Running a list of inputs, collecting the events of every turn. *)
Fixpoint run (r : resolver) (evs : list event) (inputs : list input)
  : option (resolver * list event) :=
  match inputs with
  | [] => Some (r, evs)
  | i :: inputs' =>
      match step r i with
      | Some o => run (outcome_state o) (evs ++ outcome_events o) inputs'
      | None => None
      end
  end.

Inductive steps (r : resolver) : resolver -> Prop :=
| steps_refl : steps r r
| steps_step r' i o :
    steps r r' -> step r' i = Some o -> steps r (outcome_state o).

Definition reachable (r : resolver) : Prop :=
  exists port, steps (VmapiResolver port) r.

(** *** Invariants of the event loop *)

(** The fields [diffAndEmit] and [state_stopping] decide on. *)
Definition core (r : resolver) : Z * option string * obj backend * nat :=
  (vmr_backend_port r, vmr_last_error r, vmr_backends r, rng r).

(** What one turn of the event loop can do to them: nothing, empty
    [vmr_backends], or reconcile it with some discovery result. *)
Definition evolves_core (c c' : Z * option string * obj backend * nat)
  : Prop :=
  let '(port, err, bs, n) := c in
  let '(port', err', bs', n') := c' in
  port' = port /\ err' = err
  /\ ((bs' = bs /\ n' = n)
      \/ (bs' = [] /\ n' = n)
      \/ (exists d, bs' = install port (assign bs n d) []
                    /\ n' = n + List.length (unknown bs d))).

Definition evolves (r r' : resolver) : Prop :=
  evolves_core (core r) (core r').

(** Every backend sits under its own [key] field, and that key was drawn
    by an earlier [randomBytes] call. *)
Definition keyed (r : resolver) : Prop :=
  forall k b,
    Obj.get k (vmr_backends r) = Some b ->
    be_key b = k /\ exists j, j < rng r /\ k = fresh_key j.

(** Every backend for endpoint [e] has a key drawn by call [n] or a
    later one. *)
Definition drawn_since (n : nat) (e : endpoint) (r : resolver) : Prop :=
  forall k b,
    Obj.get k (vmr_backends r) = Some b -> endpoint_of b = e ->
    exists j, n <= j < rng r /\ k = fresh_key j.

(** A request made by a timer tick, as opposed to [state_starting]'s. *)
Definition issued_by_tick (c : closure) : bool :=
  match cl_origin c with
  | FromStarting => false
  | FromRunning | FromFailed => true
  end.

(** [vmr_lastPoll] is set exactly while a request made by a tick is
    outstanding, and there is at most one. *)
Definition poll_guarded (r : resolver) : Prop :=
  (forall c, In c (intervals r) -> issued_by_tick c = true)
  /\ List.length (filter issued_by_tick (pending r))
     = match vmr_lastPoll r with Some _ => 1 | None => 0 end.

(** *** What one turn emits *)

(** The events of [state_stopping] for the set [bs]. *)
Definition stopping_events (bs : obj backend) : list event :=
  map (fun b => EvRemoved (be_key b))
    (flat_map
       (fun be => match Obj.get be bs with
                  | Some b => [b]
                  | None => []
                  end)
       (Obj.keys bs)).

(** The events of [diffAndEmit] for the set [bs], the discovery result
    [d] and [n] earlier calls of [randomBytes]. *)
Definition reconcile_events (port : Z) (bs : obj backend) (n : nat)
    (d : list endpoint) : list event :=
  let new := install port (assign bs n d) [] in
  map (fun k => EvAdded k (Obj.get k new))
    (map fresh_key (seq n (List.length (unknown bs d))))
  ++ map EvRemoved (diff_removed bs new).

(** What a turn does to the set, to the number of draws and to the
    subscribers: nothing, [state_stopping], or [diffAndEmit]. *)
Definition effect_on (port : Z) (bs : obj backend) (n : nat) (o : outcome)
  : Prop :=
  (vmr_backends (outcome_state o) = bs
   /\ rng (outcome_state o) = n
   /\ outcome_events o = [])
  \/ (vmr_backends (outcome_state o) = []
      /\ rng (outcome_state o) = n
      /\ outcome_events o = stopping_events bs)
  \/ (exists d,
         vmr_backends (outcome_state o) = install port (assign bs n d) []
         /\ rng (outcome_state o) = n + List.length (unknown bs d)
         /\ outcome_events o = reconcile_events port bs n d).

Definition effect (r : resolver) (o : outcome) : Prop :=
  effect_on (vmr_backend_port r) (vmr_backends r) (rng r) o.

(** *** A subscriber

    The set of keys a subscriber holds when it adds a key on [added]
    and drops it on [removed]. *)
Definition apply_event (live : list string) (ev : event) : list string :=
  match ev with
  | EvAdded k _ => if existsb (String.eqb k) live then live else live ++ [k]
  | EvRemoved k => filter (fun k' => negb (String.eqb k k')) live
  end.

Definition replay (evs : list event) : list string :=
  fold_left apply_event evs [].

Definition is_added (ev : event) : bool :=
  match ev with EvAdded _ _ => true | EvRemoved _ => false end.

(** *** The machine *)

(** The arrows between the state functions: which [S.gotoState] each
    state function, or a callback it registers, calls. *)
Definition allowed_transition (a b : fsm_state_name) : bool :=
  match a, b with
  | stopped, starting
  | starting, running | starting, failed
  | running, stopping
  | failed, running | failed, stopping
  | stopping, stopped => true
  | _, _ => fsm_state_name_eqb a b
  end.

(** The state whose function made a closure. *)
Definition origin_state (o : origin) : fsm_state_name :=
  match o with
  | FromStarting => starting
  | FromRunning => running
  | FromFailed => failed
  end.

(** No closure holds a handle newer than the machine's, and one that
    holds the machine's handle was made by the current state. *)
Definition handles_current (r : resolver) : Prop :=
  forall c,
    In c (pending r) \/ In c (intervals r) ->
    cl_handle c <= fsm_handle r
    /\ (cl_handle c = fsm_handle r ->
        origin_state (cl_origin c) = fsm_state r).

(** The request of [state_starting] is outstanding exactly while the
    machine is in 'starting', under the machine's handle; every other
    request was made by a timer tick. *)
Definition starting_request (r : resolver) : Prop :=
  filter (fun c => negb (issued_by_tick c)) (pending r)
  = match fsm_state r with
    | starting =>
        [{| cl_origin := FromStarting; cl_handle := fsm_handle r |}]
    | _ => []
    end.

(** The timers alive in each state. *)
Definition timers_of (s : fsm_state_name) (h : nat) : list closure :=
  match s with
  | running => [{| cl_origin := FromRunning; cl_handle := h |}]
  | failed => [{| cl_origin := FromFailed; cl_handle := h |}]
  | stopped | starting | stopping => []
  end.

(** The inputs other than [stop()] and a successful answer. *)
Definition quiet_input (i : input) : bool :=
  match i with
  | Stop | Fetched _ (FetchOk _) => false
  | Start | Immediate | Tick _ _ | Fetched _ (FetchErr _) => true
  end.

(** Drops the section variables a statement does not mention, so that
    no proof depends on them by accident. *)
Ltac only_stated :=
  try clear stale_handle_throws;
  try clear nic_tag_regexp_test;
  try clear entropy.

(** ** Facts about objects used as maps *)

Lemma get_set_same {V} (k : string) (v : V) (o : obj V) :
  Obj.get k (Obj.set k v o) = Some v.
Proof.
  induction o as [|[k' v'] o IH]; simpl.
  - now rewrite String.eqb_refl.
  - destruct (String.eqb k k') eqn:E; simpl.
    + now rewrite String.eqb_refl.
    + now rewrite E.
Qed.

Lemma get_set_other {V} (k k' : string) (v : V) (o : obj V) :
  k' <> k -> Obj.get k' (Obj.set k v o) = Obj.get k' o.
Proof.
  intros Hne. induction o as [|[k0 v0] o IH]; simpl.
  - destruct (String.eqb_spec k' k); congruence.
  - destruct (String.eqb_spec k k0) as [->|Hk]; simpl.
    + destruct (String.eqb_spec k' k0); congruence.
    + now rewrite IH.
Qed.

Lemma get_set {V} (k k' : string) (v : V) (o : obj V) :
  Obj.get k' (Obj.set k v o) = if String.eqb k' k then Some v else Obj.get k' o.
Proof.
  destruct (String.eqb_spec k' k) as [->|Hne].
  - apply get_set_same.
  - now apply get_set_other.
Qed.

Lemma get_none_iff {V} (k : string) (o : obj V) :
  Obj.get k o = None <-> ~ In k (Obj.keys o).
Proof.
  only_stated.
  induction o as [|[k' v'] o IH]; simpl.
  - tauto.
  - destruct (String.eqb_spec k k') as [->|Hne].
    + split; [discriminate | intros H; exfalso; apply H; now left].
    + rewrite IH. split; intros H; [intros [E|E]; congruence | tauto].
Qed.

Lemma get_some_in_keys {V} (k : string) (v : V) (o : obj V) :
  Obj.get k o = Some v -> In k (Obj.keys o).
Proof.
  intros H. destruct (in_dec string_dec k (Obj.keys o)) as [Hin|Hin]; auto.
  apply get_none_iff in Hin. congruence.
Qed.

Lemma in_keys_get {V} (k : string) (o : obj V) :
  In k (Obj.keys o) -> exists v, Obj.get k o = Some v.
Proof.
  intros Hin. destruct (Obj.get k o) as [v|] eqn:E; eauto.
  apply get_none_iff in E. contradiction.
Qed.

Lemma in_keys_set {V} (k k' : string) (v : V) (o : obj V) :
  In k' (Obj.keys (Obj.set k v o)) <-> k' = k \/ In k' (Obj.keys o).
Proof.
  only_stated.
  induction o as [|[k0 v0] o IH]; simpl.
  - intuition.
  - destruct (String.eqb_spec k k0) as [->|Hne]; simpl.
    + intuition.
    + rewrite IH. intuition.
Qed.

Lemma NoDup_keys_set {V} (k : string) (v : V) (o : obj V) :
  NoDup (Obj.keys o) -> NoDup (Obj.keys (Obj.set k v o)).
Proof.
  only_stated.
  induction o as [|[k0 v0] o IH]; simpl; intros Hnd.
  - constructor; [tauto | constructor].
  - inversion Hnd as [|? ? Hnotin Hnd']; subst.
    destruct (String.eqb_spec k k0) as [->|Hne]; simpl.
    + now constructor.
    + constructor; [|now apply IH].
      change (~ In k0 (Obj.keys (Obj.set k v o))).
      rewrite in_keys_set. intros [E|E]; [congruence | contradiction].
Qed.

(** Writing back what is already there changes nothing. *)
Lemma set_get_id {V} (k : string) (v : V) (o : obj V) :
  Obj.get k o = Some v -> Obj.set k v o = o.
Proof.
  induction o as [|[k0 v0] o IH]; simpl; [discriminate|].
  destruct (String.eqb_spec k k0) as [->|Hne]; intros H.
  - congruence.
  - now rewrite IH.
Qed.

(** ** [base64] loses nothing *)

Example base64_Man : base64 ["M"%byte; "a"%byte; "n"%byte] = "TWFu"%string.
Proof. reflexivity. Qed.

Lemma b64_index_digit (n : N) : (n < 64)%N -> b64_index (b64_digit n) = n.
Proof.
  only_stated. intros H. rewrite <- (N2Nat.id n).
  assert (Hm : N.to_nat n < 64) by lia. revert Hm.
  generalize (N.to_nat n). clear. intros m Hm.
  do 64 (destruct m as [|m]; [reflexivity|]). lia.
Qed.

Lemma b64_digit_inj (m n : N) :
  (m < 64)%N -> (n < 64)%N -> b64_digit m = b64_digit n -> m = n.
Proof.
  only_stated. intros Hm Hn E.
  rewrite <- (b64_index_digit m Hm), <- (b64_index_digit n Hn).
  now rewrite E.
Qed.

Lemma lor_disjoint (a h n : N) :
  (h < 2 ^ n)%N -> N.lor (a * 2 ^ n) h = (a * 2 ^ n + h)%N.
Proof.
  only_stated. intros Hh.
  rewrite N.add_nocarry_lxor; [rewrite N.lxor_lor; auto|];
    apply N.bits_inj; intros i; rewrite N.land_spec, N.bits_0;
    destruct (N.lt_ge_cases i n) as [Hi|Hi].
  1,3: rewrite N.mul_pow2_bits_low by assumption; reflexivity.
  1,2: rewrite <- (N.mod_small h (2 ^ n)) by assumption;
    rewrite N.mod_pow2_bits_high by assumption; apply andb_false_r.
Qed.

(** Facts [lia] needs about a quotient and a remainder. *)
Ltac div_mod_facts x k :=
  pose proof (N.div_mod x k ltac:(discriminate));
  pose proof (N.mod_lt x k ltac:(discriminate));
  pose proof (N.le_0_l (x mod k));
  pose proof (N.le_0_l (x / k)).

(** The four six-bit groups of three bytes, in arithmetic. *)
Lemma sextets_arith (x y z : N) :
  (x < 256)%N -> (y < 256)%N -> (z < 256)%N ->
  N.shiftr x 2 = (x / 4)%N
  /\ N.lor (N.shiftl (N.land x 3) 4) (N.shiftr y 4)
     = (x mod 4 * 16 + y / 16)%N
  /\ N.lor (N.shiftl (N.land y 15) 2) (N.shiftr z 6)
     = (y mod 16 * 4 + z / 64)%N
  /\ N.land z 63 = (z mod 64)%N.
Proof.
  only_stated. intros Hx Hy Hz.
  assert (Hy4 : (y / 2 ^ 4 < 2 ^ 4)%N).
  { change (2 ^ 4)%N with 16%N. div_mod_facts y 16%N. lia. }
  assert (Hz6 : (z / 2 ^ 6 < 2 ^ 2)%N).
  { change (2 ^ 6)%N with 64%N. change (2 ^ 2)%N with 4%N.
    div_mod_facts z 64%N. lia. }
  split; [|split; [|split]].
  - now rewrite N.shiftr_div_pow2.
  - rewrite N.shiftl_mul_pow2, N.shiftr_div_pow2, lor_disjoint by exact Hy4.
    change 3%N with (N.ones 2). now rewrite N.land_ones.
  - rewrite N.shiftl_mul_pow2, N.shiftr_div_pow2, lor_disjoint by exact Hz6.
    change 15%N with (N.ones 4). now rewrite N.land_ones.
  - change 63%N with (N.ones 6). now rewrite N.land_ones.
Qed.

Lemma sextets_inj (x y z x' y' z' : N) :
  (x < 256)%N -> (y < 256)%N -> (z < 256)%N ->
  (x' < 256)%N -> (y' < 256)%N -> (z' < 256)%N ->
  (x / 4 = x' / 4)%N ->
  (x mod 4 * 16 + y / 16 = x' mod 4 * 16 + y' / 16)%N ->
  (y mod 16 * 4 + z / 64 = y' mod 16 * 4 + z' / 64)%N ->
  (z mod 64 = z' mod 64)%N ->
  x = x' /\ y = y' /\ z = z'.
Proof.
  only_stated. intros.
  div_mod_facts x 4%N; div_mod_facts x' 4%N;
    div_mod_facts y 16%N; div_mod_facts y' 16%N;
    div_mod_facts z 64%N; div_mod_facts z' 64%N.
  lia.
Qed.

Lemma byte_to_N_lt (b : byte) : (Byte.to_N b < 256)%N.
Proof. only_stated. pose proof (Byte.to_N_bounded b). lia. Qed.

Lemma byte_to_N_inj (a b : byte) : Byte.to_N a = Byte.to_N b -> a = b.
Proof.
  only_stated. intros E. pose proof (Byte.of_to_N a) as Ha.
  rewrite E, Byte.of_to_N in Ha. congruence.
Qed.

(** Three bytes can be read back from their four digits. *)
Lemma b64_group_inj (a b c a' b' c' : byte) :
  let x := Byte.to_N a in
  let y := Byte.to_N b in
  let z := Byte.to_N c in
  let x' := Byte.to_N a' in
  let y' := Byte.to_N b' in
  let z' := Byte.to_N c' in
  b64_digit (N.shiftr x 2) = b64_digit (N.shiftr x' 2) ->
  b64_digit (N.lor (N.shiftl (N.land x 3) 4) (N.shiftr y 4))
  = b64_digit (N.lor (N.shiftl (N.land x' 3) 4) (N.shiftr y' 4)) ->
  b64_digit (N.lor (N.shiftl (N.land y 15) 2) (N.shiftr z 6))
  = b64_digit (N.lor (N.shiftl (N.land y' 15) 2) (N.shiftr z' 6)) ->
  b64_digit (N.land z 63) = b64_digit (N.land z' 63) ->
  a = a' /\ b = b' /\ c = c'.
Proof.
  only_stated. cbv zeta.
  pose proof (byte_to_N_lt a) as Ha. pose proof (byte_to_N_lt b) as Hb.
  pose proof (byte_to_N_lt c) as Hc. pose proof (byte_to_N_lt a') as Ha'.
  pose proof (byte_to_N_lt b') as Hb'. pose proof (byte_to_N_lt c') as Hc'.
  destruct (sextets_arith _ _ _ Ha Hb Hc) as (-> & -> & -> & ->).
  destruct (sextets_arith _ _ _ Ha' Hb' Hc') as (-> & -> & -> & ->).
  intros E1 E2 E3 E4.
  div_mod_facts (Byte.to_N a) 4%N; div_mod_facts (Byte.to_N a') 4%N;
    div_mod_facts (Byte.to_N b) 16%N; div_mod_facts (Byte.to_N b') 16%N;
    div_mod_facts (Byte.to_N c) 64%N; div_mod_facts (Byte.to_N c') 64%N.
  apply b64_digit_inj in E1, E2, E3, E4; try lia.
  destruct (sextets_inj _ _ _ _ _ _ Ha Hb Hc Ha' Hb' Hc' E1 E2 E3 E4)
    as (Ex & Ey & Ez).
  auto using byte_to_N_inj.
Qed.

(** ** Facts about keys *)

Lemma fresh_key_length (call : nat) : String.length (fresh_key call) = 12.
Proof. reflexivity. Qed.

Lemma fresh_key_not_length (call : nat) : fresh_key call <> "length"%string.
Proof.
  intros E. apply (f_equal String.length) in E.
  rewrite fresh_key_length in E. discriminate.
Qed.

(** Two calls that yield the same key returned the same nine bytes. *)
Lemma fresh_key_inj (i j : nat) :
  fresh_key i = fresh_key j -> randomBytes 9 i = randomBytes 9 j.
Proof.
  unfold fresh_key, randomBytes. cbn [seq map base64]. cbv zeta.
  intros H.
  injection H as E1 E2 E3 E4 E5 E6 E7 E8 E9 E10 E11 E12.
  destruct (b64_group_inj _ _ _ _ _ _ E1 E2 E3 E4) as (-> & -> & ->).
  destruct (b64_group_inj _ _ _ _ _ _ E5 E6 E7 E8) as (-> & -> & ->).
  destruct (b64_group_inj _ _ _ _ _ _ E9 E10 E11 E12) as (-> & -> & ->).
  reflexivity.
Qed.

(** Distinct draws give distinct keys. *)
Lemma fresh_keys_NoDup (l : list nat) :
  NoDup (map (randomBytes 9) l) -> NoDup (map fresh_key l).
Proof.
  induction l as [|i l IH]; simpl; intros H; [constructor|].
  inversion H as [|? ? Hnotin Hnd]; subst. constructor; auto.
  intros Hin. apply Hnotin. apply in_map_iff in Hin.
  destruct Hin as (j & E & Hj). apply in_map_iff. exists j.
  split; auto. now apply fresh_key_inj.
Qed.

Lemma same_endpoint_iff (ob : backend) (e : endpoint) :
  same_endpoint ob e = true <-> endpoint_of ob = e.
Proof.
  unfold same_endpoint, endpoint_of. destruct e as [n a]; simpl.
  rewrite andb_true_iff, !String.eqb_eq.
  split; [intros [-> ->]; reflexivity | intros E; inversion E; auto].
Qed.

Lemma find_key_fold_some (old : obj backend) (e : endpoint)
    (ks : list string) (acc : option string) (k : string) :
  fold_left
    (fun found key =>
       match Obj.get key old with
       | Some old_backend =>
           if same_endpoint old_backend e then Some key else found
       | None => found
       end) ks acc = Some k ->
  acc = Some k
  \/ exists ob, Obj.get k old = Some ob /\ same_endpoint ob e = true.
Proof.
  revert acc. induction ks as [|k0 ks IH]; simpl; intros acc H; auto.
  apply IH in H. destruct H as [H|H]; auto.
  destruct (Obj.get k0 old) as [ob|] eqn:G; auto.
  destruct (same_endpoint ob e) eqn:M; auto.
  inversion H; subst. right; eauto.
Qed.

Lemma find_key_fold_found (old : obj backend) (e : endpoint)
    (ks : list string) (acc : option string) :
  acc <> None
  \/ (exists k ob, In k ks /\ Obj.get k old = Some ob
                  /\ same_endpoint ob e = true) ->
  fold_left
    (fun found key =>
       match Obj.get key old with
       | Some old_backend =>
           if same_endpoint old_backend e then Some key else found
       | None => found
       end) ks acc <> None.
Proof.
  revert acc. induction ks as [|k0 ks IH]; simpl; intros acc H.
  - destruct H as [H|(k & ob & [] & _)]; auto.
  - apply IH. destruct H as [H|(k & ob & [->|Hin] & G & M)].
    + left. destruct (Obj.get k0 old) as [ob|]; auto.
      destruct (same_endpoint ob e); [discriminate | auto].
    + left. rewrite G, M. discriminate.
    + right; eauto.
Qed.

(** A key that is found belongs to a backend of the old set with the
    same name and address. *)
Lemma find_key_some (old : obj backend) (e : endpoint) (k : string) :
  find_key old e = Some k ->
  exists ob, Obj.get k old = Some ob /\ endpoint_of ob = e.
Proof.
  unfold find_key. intros H. apply find_key_fold_some in H.
  destruct H as [H|(ob & G & M)]; [discriminate|].
  apply same_endpoint_iff in M. eauto.
Qed.

(** An endpoint with a backend in the old set is found. *)
Lemma find_key_found (old : obj backend) (e : endpoint) (k : string)
    (ob : backend) :
  Obj.get k old = Some ob -> endpoint_of ob = e -> find_key old e <> None.
Proof.
  intros G M. unfold find_key. apply find_key_fold_found. right.
  exists k, ob. repeat split; auto.
  - eapply get_some_in_keys; eauto.
  - now apply same_endpoint_iff.
Qed.

Lemma find_key_empty (e : endpoint) : find_key [] e = None.
Proof. reflexivity. Qed.

(** ** Facts about the loop of [diffAndEmit] *)

Lemma diff_loop_fold (port : Z) (old : obj backend) (d : list endpoint)
    (l : diff_locals) :
  fold_left (diff_step port old) d l =
  {| added := added l
              ++ map fresh_key (seq (calls l) (List.length (unknown old d)));
     new_backends := install port (assign old (calls l) d) (new_backends l);
     calls := calls l + List.length (unknown old d) |}.
Proof.
  revert l. induction d as [|e d IH]; intros l; simpl.
  - rewrite app_nil_r, Nat.add_0_r. now destruct l.
  - rewrite IH. unfold diff_step, unknown; simpl.
    destruct (find_key old e) as [key|] eqn:F; simpl.
    + reflexivity.
    + rewrite <- app_assoc, Nat.add_succ_r. reflexivity.
Qed.

Lemma assign_snd (old : obj backend) (c : nat) (d : list endpoint) :
  map snd (assign old c d) = d.
Proof.
  revert c. induction d as [|e d IH]; intros c; simpl; auto.
  destruct (find_key old e); simpl; now rewrite IH.
Qed.

(** Every assignment is either a key found in the old set or the key
    drawn by one of this run's [randomBytes] calls. *)
Lemma assign_in (old : obj backend) (c : nat) (d : list endpoint)
    (k : string) (e : endpoint) :
  In (k, e) (assign old c d) ->
  In e d
  /\ (find_key old e = Some k
      \/ (find_key old e = None
          /\ exists j, c <= j < c + List.length (unknown old d)
                       /\ k = fresh_key j)).
Proof.
  only_stated.
  revert c. induction d as [|e0 d IH]; intros c; simpl; [tauto|].
  unfold unknown; simpl.
  destruct (find_key old e0) as [k0|] eqn:F; simpl; intros [H|H].
  - inversion H; subst. auto.
  - apply IH in H. tauto.
  - inversion H; subst. split; auto. right. split; auto.
    exists c. split; [lia | reflexivity].
  - apply IH in H. destruct H as [Hin [H|(Hn & j & Hj & ->)]]; auto.
    split; auto. right. split; auto. exists j. split; [|reflexivity].
    fold (unknown old d). lia.
Qed.

Lemma in_assign (old : obj backend) (c : nat) (d : list endpoint)
    (e : endpoint) :
  In e d -> exists k, In (k, e) (assign old c d).
Proof.
  intros Hin. rewrite <- (assign_snd old c d) in Hin.
  apply in_map_iff in Hin. destruct Hin as ([k e'] & E & Hin).
  simpl in E; subst. eauto.
Qed.

Lemma install_get (port : Z) (a : list (string * endpoint))
    (nb : obj backend) (k : string) (b : backend) :
  Obj.get k (install port a nb) = Some b ->
  (exists e, In (k, e) a /\ b = mk_backend port e k)
  \/ Obj.get k nb = Some b.
Proof.
  revert nb. induction a as [|[k0 e0] a IH]; intros nb; simpl; auto.
  intros H. apply IH in H. destruct H as [(e & Hin & ->)|H].
  - left; eauto.
  - simpl in H. rewrite get_set in H.
    destruct (String.eqb_spec k k0) as [->|Hne]; auto.
    inversion H; subst. left; eauto.
Qed.

Lemma install_keys (port : Z) (a : list (string * endpoint))
    (nb : obj backend) (k : string) :
  In k (Obj.keys (install port a nb)) <->
  In k (map fst a) \/ In k (Obj.keys nb).
Proof.
  only_stated.
  revert nb. induction a as [|[k0 e0] a IH]; intros nb; simpl.
  - tauto.
  - change (In k (Obj.keys
                     (install port a
                        (Obj.set k0 (mk_backend port e0 k0) nb))) <->
            (k0 = k \/ In k (map fst a)) \/ In k (Obj.keys nb)).
    rewrite IH, in_keys_set. intuition.
Qed.

Lemma install_NoDup (port : Z) (a : list (string * endpoint))
    (nb : obj backend) :
  NoDup (Obj.keys nb) -> NoDup (Obj.keys (install port a nb)).
Proof.
  revert nb. induction a as [|[k0 e0] a IH]; intros nb H; simpl; auto.
  apply IH. now apply NoDup_keys_set.
Qed.

Lemma endpoint_eqb_spec (e1 e2 : endpoint) :
  reflect (e1 = e2) (endpoint_eqb e1 e2).
Proof.
  unfold endpoint_eqb. destruct e1 as [n1 a1], e2 as [n2 a2]; simpl.
  destruct (String.eqb_spec n1 n2) as [->|Hn];
    destruct (String.eqb_spec a1 a2) as [->|Ha]; simpl;
    constructor; congruence.
Qed.

Lemma endpoint_of_mk_backend (port : Z) (e : endpoint) (k : string) :
  endpoint_of (mk_backend port e k) = e.
Proof. now destruct e. Qed.

(** The key drawn for an endpoint that is not found is the one of the
    call that endpoint triggers. *)
Lemma assign_minted (old : obj backend) (c : nat) (d : list endpoint)
    (k : string) (e : endpoint) :
  In (k, e) (assign old c d) -> find_key old e = None ->
  exists i, nth_error (unknown old d) i = Some e /\ k = fresh_key (c + i).
Proof.
  only_stated.
  revert c. induction d as [|e0 d IH]; intros c; simpl; [tauto|].
  unfold unknown; simpl.
  destruct (find_key old e0) as [k0|] eqn:F; simpl; intros [H|H] Hn.
  - inversion H; subst. congruence.
  - now apply IH.
  - inversion H; subst. exists 0. rewrite Nat.add_0_r. auto.
  - destruct (IH _ H Hn) as (i & Hi & ->). exists (S i).
    rewrite Nat.add_succ_r. auto.
Qed.

(** An endpoint reported once is stored under one key. *)
Lemma assign_once (old : obj backend) (c : nat) (d : list endpoint)
    (k1 k2 : string) (e : endpoint) :
  occurrences e d <= 1 ->
  In (k1, e) (assign old c d) -> In (k2, e) (assign old c d) -> k1 = k2.
Proof.
  only_stated.
  unfold occurrences. revert c.
  induction d as [|e0 d IH]; intros c; simpl; [tauto|].
  destruct (endpoint_eqb_spec e e0) as [<-|Hne]; simpl; intros Hocc.
  - assert (Hnot : forall k c', ~ In (k, e) (assign old c' d)).
    { intros k c' Hin. apply assign_in in Hin. destruct Hin as [Hin _].
      assert (Hf : In e (filter (endpoint_eqb e) d)).
      { apply filter_In. split; auto.
        now destruct (endpoint_eqb_spec e e). }
      destruct (filter (endpoint_eqb e) d); simpl in *; [tauto | lia]. }
    destruct (find_key old e); simpl; intros [H1|H1] [H2|H2];
      try (exfalso; eapply Hnot; eassumption); congruence.
  - destruct (find_key old e0); simpl; intros [H1|H1] [H2|H2];
      try congruence; eapply IH; eauto.
Qed.

(** ** What [diffAndEmit] leaves behind *)

Lemma diffAndEmit_backends (r : resolver) :
  vmr_backends (fst (diffAndEmit r)) =
  install (vmr_backend_port r)
    (assign (vmr_backends r) (rng r) (vmr_discovered_backends r)) [].
Proof. unfold diffAndEmit, diff_loop. rewrite diff_loop_fold. reflexivity. Qed.

Lemma diffAndEmit_lastAdded (r : resolver) :
  vmr_lastAdded (fst (diffAndEmit r)) =
  map fresh_key
    (seq (rng r)
       (List.length (unknown (vmr_backends r) (vmr_discovered_backends r)))).
Proof. unfold diffAndEmit, diff_loop. rewrite diff_loop_fold. reflexivity. Qed.

Lemma diffAndEmit_rng (r : resolver) :
  rng (fst (diffAndEmit r)) =
  rng r + List.length (unknown (vmr_backends r) (vmr_discovered_backends r)).
Proof. unfold diffAndEmit, diff_loop. rewrite diff_loop_fold. reflexivity. Qed.

Lemma diffAndEmit_events (r : resolver) :
  snd (diffAndEmit r) =
  map (fun k => EvAdded k (Obj.get k (vmr_backends (fst (diffAndEmit r)))))
    (vmr_lastAdded (fst (diffAndEmit r)))
  ++ map EvRemoved
       (diff_removed (vmr_backends r) (vmr_backends (fst (diffAndEmit r)))).
Proof. reflexivity. Qed.

(** [diffAndEmit] leaves the machine, the timers, the requests in
    flight and the discovery result alone. *)
Lemma diffAndEmit_frame (r : resolver) :
  let r' := fst (diffAndEmit r) in
  vmr_backend_port r' = vmr_backend_port r
  /\ vmr_discovered_backends r' = vmr_discovered_backends r
  /\ vmr_lastPoll r' = vmr_lastPoll r
  /\ vmr_last_error r' = vmr_last_error r
  /\ fsm_state r' = fsm_state r
  /\ fsm_handle r' = fsm_handle r
  /\ intervals r' = intervals r
  /\ pending r' = pending r.
Proof.
  unfold diffAndEmit. simpl.
  destruct (_ || _); simpl; repeat split; reflexivity.
Qed.

(** Every backend of the new set was built from a discovered endpoint
    and sits under its own [key] field. *)
Lemma diffAndEmit_get (r : resolver) (k : string) (b : backend) :
  Obj.get k (vmr_backends (fst (diffAndEmit r))) = Some b ->
  exists e,
    In (k, e) (assign (vmr_backends r) (rng r) (vmr_discovered_backends r))
    /\ b = mk_backend (vmr_backend_port r) e k.
Proof.
  rewrite diffAndEmit_backends. intros H. apply install_get in H.
  destruct H as [H|H]; [assumption | discriminate].
Qed.

(** ** Order of the events *)

Lemma added_first_app (ks : list string) (f : string -> option backend)
    (rs : list string) :
  added_first (map (fun k => EvAdded k (f k)) ks ++ map EvRemoved rs) = true.
Proof.
  induction ks as [|k ks IH]; simpl; auto.
  destruct rs as [|x rs]; simpl; auto.
  apply forallb_forall. intros ev Hin. apply in_map_iff in Hin.
  now destruct Hin as (y & <- & _).
Qed.

Lemma added_first_order (evs : list event) :
  added_first evs = true ->
  forall i j k k' b,
    nth_error evs i = Some (EvRemoved k) ->
    nth_error evs j = Some (EvAdded k' b) -> j < i.
Proof.
  induction evs as [|ev evs IH]; intros Hf i j k k' b Hi Hj.
  - destruct i; discriminate.
  - destruct ev as [ka ba|kr]; simpl in Hf.
    + destruct i as [|i]; [discriminate|].
      destruct j as [|j]; [lia|].
      simpl in Hi, Hj. specialize (IH Hf _ _ _ _ _ Hi Hj). lia.
    + destruct j as [|j]; [discriminate|]. simpl in Hj.
      apply nth_error_In in Hj.
      rewrite forallb_forall in Hf. apply Hf in Hj. discriminate.
Qed.

(** C9: in every reconciliation, all [added] events are emitted before
    any [removed] event: the events of [diffAndEmit] are the [added]
    events of the keys in [vmr_lastAdded] followed by the [removed]
    events of the keys in [vmr_lastRemoved], so an [added] event always
    stands at a smaller position than a [removed] one. *)
Theorem diffAndEmit_added_before_removed (r : resolver) :
  let evs := snd (diffAndEmit r) in
  let r' := fst (diffAndEmit r) in
  (exists removed,
      vmr_lastRemoved r' = RemovedKeys removed
      /\ evs = map (fun k => EvAdded k (Obj.get k (vmr_backends r')))
                (vmr_lastAdded r')
              ++ map EvRemoved removed)
  /\ added_first evs = true
  /\ (forall i j k k' b,
        nth_error evs i = Some (EvRemoved k) ->
        nth_error evs j = Some (EvAdded k' b) -> j < i).
Proof.
  cbv zeta.
  assert (Hf : added_first (snd (diffAndEmit r)) = true).
  { rewrite diffAndEmit_events. apply added_first_app. }
  split; [|split]; auto.
  - eexists. split; [reflexivity|]. apply diffAndEmit_events.
  - now apply added_first_order.
Qed.

(** ** Keys and pairs in the reconciled set *)

Lemma diffAndEmit_NoDup (r : resolver) :
  NoDup (Obj.keys (vmr_backends (fst (diffAndEmit r)))).
Proof. rewrite diffAndEmit_backends. apply install_NoDup. constructor. Qed.

(** ** Idempotence *)

Lemma nth_error_fresh_keys (c m i : nat) :
  i < m -> nth_error (map fresh_key (seq c m)) i = Some (fresh_key (c + i)).
Proof.
  revert c i. induction m as [|m IH]; intros c i Hi; [lia|].
  destruct i as [|i]; simpl.
  - now rewrite Nat.add_0_r.
  - rewrite IH by lia. now rewrite Nat.add_succ_r.
Qed.

(** When no new endpoint is reported twice and the keys drawn are new,
    two assignments share their key exactly when they share their
    endpoint. *)
Lemma assign_consistent (old : obj backend) (c : nat) (d : list endpoint) :
  NoDup (unknown old d) ->
  NoDup (map fresh_key (seq c (List.length (unknown old d)))) ->
  (forall k, In k (map fresh_key (seq c (List.length (unknown old d)))) ->
             Obj.get k old = None) ->
  forall k e k' e',
    In (k, e) (assign old c d) -> In (k', e') (assign old c d) ->
    (k = k' <-> e = e').
Proof.
  intros Hd Hk Hnew k e k' e' A A'.
  assert (Hfresh : forall k0 e0 i,
             nth_error (unknown old d) i = Some e0 ->
             k0 = fresh_key (c + i) ->
             i < List.length (unknown old d)
             /\ nth_error (map fresh_key
                             (seq c (List.length (unknown old d)))) i
                = Some k0).
  { intros k0 e0 i Hi ->.
    assert (i < List.length (unknown old d))
      by (apply nth_error_Some; congruence).
    split; auto. now apply nth_error_fresh_keys. }
  destruct (assign_in _ _ _ _ _ A) as [_ [F|[F _]]];
    destruct (assign_in _ _ _ _ _ A') as [_ [F'|[F' _]]].
  - split; intros E; [|congruence]. subst k'.
    apply find_key_some in F, F'.
    destruct F as (ob & G & <-), F' as (ob' & G' & <-). congruence.
  - destruct (assign_minted _ _ _ _ _ A' F') as (i & Hi & Hk').
    destruct (Hfresh _ _ _ Hi Hk') as [_ Hn]. apply nth_error_In in Hn.
    apply Hnew in Hn. destruct (find_key_some _ _ _ F) as (ob & G & _).
    split; intros E; subst; congruence.
  - destruct (assign_minted _ _ _ _ _ A F) as (i & Hi & Hk0).
    destruct (Hfresh _ _ _ Hi Hk0) as [_ Hn]. apply nth_error_In in Hn.
    apply Hnew in Hn. destruct (find_key_some _ _ _ F') as (ob & G & _).
    split; intros E; subst; congruence.
  - destruct (assign_minted _ _ _ _ _ A F) as (i & Hi & Hk0).
    destruct (assign_minted _ _ _ _ _ A' F') as (i' & Hi' & Hk0').
    destruct (Hfresh _ _ _ Hi Hk0) as [Hlt Hn].
    destruct (Hfresh _ _ _ Hi' Hk0') as [Hlt' Hn'].
    split; intros E.
    + assert (Ei : nth_error
                     (map fresh_key (seq c (List.length (unknown old d)))) i
                   = nth_error
                       (map fresh_key (seq c (List.length (unknown old d))))
                       i') by congruence.
      rewrite NoDup_nth_error in Hk. apply Hk in Ei.
      * subst i'. congruence.
      * now rewrite length_map, length_seq.
    + subst e'. rewrite <- Hi' in Hi.
      rewrite NoDup_nth_error in Hd. apply Hd in Hi; auto.
      subst i'. congruence.
Qed.

(** Under [assign_consistent], the reconciled set finds every endpoint
    again under the key it was stored with. *)
Lemma install_find_key (port : Z) (a : list (string * endpoint)) :
  (forall k e k' e', In (k, e) a -> In (k', e') a -> (k = k' <-> e = e')) ->
  forall k e, In (k, e) a -> find_key (install port a []) e = Some k.
Proof.
  intros Hc k e A.
  assert (Hk : In k (Obj.keys (install port a []))).
  { apply install_keys. left. apply in_map_iff. now exists (k, e). }
  apply in_keys_get in Hk. destruct Hk as [b G].
  destruct (install_get _ _ _ _ _ G) as [(e0 & A0 & ->)|]; [|discriminate].
  assert (e0 = e) by (apply (Hc k e0 k e); auto). subst e0.
  destruct (find_key (install port a []) e) as [k2|] eqn:F.
  - apply find_key_some in F. destruct F as (b2 & G2 & E2).
    destruct (install_get _ _ _ _ _ G2) as [(e2 & A2 & ->)|]; [|discriminate].
    rewrite endpoint_of_mk_backend in E2. subst e2.
    f_equal. now apply (Hc k2 e k e).
  - exfalso.
    exact (find_key_found _ _ _ _ G (endpoint_of_mk_backend _ _ _) F).
Qed.

(** A set that finds every endpoint under its old key assigns the same
    keys, and draws none. *)
Lemma assign_stable (old new : obj backend) (d : list endpoint) :
  forall c c',
    (forall k e, In (k, e) (assign old c d) -> find_key new e = Some k) ->
    assign new c' d = assign old c d /\ unknown new d = [].
Proof.
  unfold unknown.
  induction d as [|e d IH]; intros c c' H; simpl in *; auto.
  destruct (find_key old e) as [k|] eqn:F.
  - rewrite (H k e) by now left. simpl.
    destruct (IH c c') as [-> ->]; auto. intros; apply H; now right.
  - rewrite (H (fresh_key c) e) by now left. simpl.
    destruct (IH (S c) c') as [-> ->]; auto. intros; apply H; now right.
Qed.

Lemma diff_removed_self (o : obj backend) : diff_removed o o = [].
Proof.
  unfold diff_removed.
  assert (H : forall ks, incl ks (Obj.keys o) ->
                         filter (fun k => is_undefined (Obj.get k o)) ks = []).
  { induction ks as [|k ks IH]; intros Hincl; simpl; auto.
    destruct (in_keys_get k o) as [v ->]; [apply Hincl; now left|].
    simpl. apply IH. intros x Hx. apply Hincl. now right. }
  apply H, incl_refl.
Qed.

(** ** One turn of the event loop *)

(** Closes [evolves r r'] when [r'] is [r] with other fields set. *)
Ltac evolves_same := unfold evolves, evolves_core, core; simpl; tauto.

Lemma evolves_refl (r : resolver) : evolves r r.
Proof. evolves_same. Qed.

Lemma diffAndEmit_evolves (r : resolver) : evolves r (fst (diffAndEmit r)).
Proof.
  unfold evolves, evolves_core, core.
  destruct (diffAndEmit_frame r) as (Hp & _ & _ & He & _). cbv zeta in *.
  rewrite Hp, He, diffAndEmit_backends, diffAndEmit_rng.
  repeat split. right; right. eexists; split; reflexivity.
Qed.

Lemma enter_evolves (s : fsm_state_name) (r : resolver) :
  evolves r (fst (enter s r)).
Proof.
  destruct s; unfold enter.
  - evolves_same.
  - evolves_same.
  - pose proof (diffAndEmit_evolves
                  (set_fsm running (S (fsm_handle r)) r)) as H.
    destruct (diffAndEmit (set_fsm running (S (fsm_handle r)) r)).
    exact H.
  - evolves_same.
  - evolves_same.
Qed.

Lemma gotoState_evolves (h : nat) (s : fsm_state_name) (r : resolver) :
  evolves r (outcome_state (gotoState h s r)).
Proof.
  unfold gotoState. destruct (_ || _).
  - pose proof (enter_evolves s r) as H. destruct (enter s r). exact H.
  - evolves_same.
Qed.

Lemma step_evolves (r : resolver) (i : input) (o : outcome) :
  step r i = Some o -> evolves r (outcome_state o).
Proof.
  destruct i as [| | |n now|n res]; simpl.
  - intros H; inversion H; subst. unfold start.
    destruct (isInState stopped r);
      [apply gotoState_evolves | evolves_same].
  - intros H; inversion H; subst. unfold stop.
    destruct (_ || _); [|evolves_same].
    exact (gotoState_evolves _ _ (clearInterval (fsm_handle r) r)).
  - destruct (isInState stopping r); intros H; inversion H; subst.
    apply gotoState_evolves.
  - destruct (nth_error (intervals r) n) as [c|]; intros H;
      inversion H; subst.
    unfold on_tick. destruct (vmr_lastPoll r); evolves_same.
  - destruct (nth_error (pending r) n) as [c|]; intros H;
      inversion H; subst.
    unfold on_fetched. destruct (cl_origin c), res as [err|vms].
    + destruct (isInState starting _); [|evolves_same].
      exact (gotoState_evolves _ _
               (set_pending (remove_nth n (pending r)) r)).
    + exact (gotoState_evolves _ _
               (set_discovered_backends (discovered vms)
                  (set_pending (remove_nth n (pending r)) r))).
    + evolves_same.
    + pose proof (diffAndEmit_evolves
                    (set_discovered_backends (discovered vms)
                       (set_lastPoll None
                          (set_pending (remove_nth n (pending r)) r))))
        as H'.
      destruct (diffAndEmit _). exact H'.
    + evolves_same.
    + exact (gotoState_evolves _ _
               (set_discovered_backends (discovered vms)
                  (clearInterval (cl_handle c)
                     (set_lastPoll None
                        (set_pending (remove_nth n (pending r)) r))))).
Qed.

Lemma evolves_rng (r r' : resolver) : evolves r r' -> rng r <= rng r'.
Proof.
  unfold evolves, evolves_core, core.
  intros (_ & _ & [[_ ->]|[[_ ->]|(d & _ & ->)]]); lia.
Qed.

Lemma evolves_last_error (r r' : resolver) :
  evolves r r' -> vmr_last_error r' = vmr_last_error r.
Proof. unfold evolves, evolves_core, core. tauto. Qed.

Lemma evolves_NoDup (r r' : resolver) :
  evolves r r' -> NoDup (Obj.keys (vmr_backends r)) ->
  NoDup (Obj.keys (vmr_backends r')).
Proof.
  unfold evolves, evolves_core, core.
  intros (_ & _ & [[-> _]|[[-> _]|(d & -> & _)]]) H; auto.
  - constructor.
  - apply install_NoDup. constructor.
Qed.

Lemma evolves_drawn_since (n : nat) (e : endpoint) (r r' : resolver) :
  evolves r r' -> n <= rng r -> drawn_since n e r -> drawn_since n e r'.
Proof.
  unfold evolves, evolves_core, core, drawn_since.
  intros (_ & _ & [[-> ->]|[[-> _]|(d & -> & ->)]]) Hn H k b G E; eauto.
  - discriminate.
  - destruct (install_get _ _ _ _ _ G) as [(e0 & A & ->)|]; [|discriminate].
    rewrite endpoint_of_mk_backend in E. subst e0.
    destruct (assign_in _ _ _ _ _ A) as [_ [F|(_ & j & Hj & ->)]].
    + destruct (find_key_some _ _ _ F) as (ob & G' & E').
      destruct (H _ _ G' E') as (j & Hj & ->). exists j. split; [lia|auto].
    + exists j. split; [lia|auto].
Qed.

Lemma evolves_keyed (r r' : resolver) :
  evolves r r' -> keyed r -> keyed r'.
Proof.
  intros Hev H k b G. split.
  - revert Hev G. unfold evolves, evolves_core, core.
    intros (_ & _ & [[-> _]|[[-> _]|(d & -> & _)]]) G.
    + now apply H.
    + discriminate.
    + destruct (install_get _ _ _ _ _ G) as [(e0 & A & ->)|];
        [reflexivity | discriminate].
  - assert (Hd : drawn_since 0 (endpoint_of b) r').
    { apply (evolves_drawn_since 0 _ r r'); auto; [lia|].
      intros k0 b0 G0 _. destruct (H _ _ G0) as (_ & j & Hj & ->).
      exists j. split; [lia|auto]. }
    destruct (Hd _ _ G eq_refl) as (j & Hj & ->). exists j. split; [lia|auto].
Qed.

(** ** Reachable states *)

Lemma steps_trans (r1 r2 r3 : resolver) :
  steps r1 r2 -> steps r2 r3 -> steps r1 r3.
Proof.
  intros H12 H23. induction H23; auto. eapply steps_step; eauto.
Qed.

Lemma steps_invariant (P : resolver -> Prop) :
  (forall r i o, P r -> step r i = Some o -> P (outcome_state o)) ->
  forall r r', steps r r' -> P r -> P r'.
Proof. intros Hstep r r' H. induction H; eauto. Qed.

Lemma steps_rng (r r' : resolver) : steps r r' -> rng r <= rng r'.
Proof.
  intros H. induction H; auto.
  apply step_evolves, evolves_rng in H0. lia.
Qed.

Lemma steps_keyed (r r' : resolver) : steps r r' -> keyed r -> keyed r'.
Proof.
  apply (steps_invariant keyed). intros r0 i o H Hs.
  eapply evolves_keyed; eauto using step_evolves.
Qed.

Lemma steps_NoDup (r r' : resolver) :
  steps r r' -> NoDup (Obj.keys (vmr_backends r)) ->
  NoDup (Obj.keys (vmr_backends r')).
Proof.
  apply (steps_invariant (fun r => NoDup (Obj.keys (vmr_backends r)))).
  intros r0 i o H Hs. eapply evolves_NoDup; eauto using step_evolves.
Qed.

Lemma steps_drawn_since (n : nat) (e : endpoint) (r r' : resolver) :
  steps r r' -> n <= rng r -> drawn_since n e r -> drawn_since n e r'.
Proof.
  intros H Hn Hd. induction H; auto.
  eapply evolves_drawn_since; eauto using step_evolves.
  apply steps_rng in H. lia.
Qed.

Lemma reachable_keyed (r : resolver) : reachable r -> keyed r.
Proof.
  intros [port H]. apply (steps_keyed _ _ H). intros k b G. discriminate.
Qed.

Lemma reachable_NoDup (r : resolver) :
  reachable r -> NoDup (Obj.keys (vmr_backends r)).
Proof. intros [port H]. apply (steps_NoDup _ _ H). constructor. Qed.

Lemma reachable_steps (r r' : resolver) :
  reachable r -> steps r r' -> reachable r'.
Proof. intros [port H] H'. exists port. eapply steps_trans; eauto. Qed.

(** Whatever [run] returns is a state the event loop can get to. *)
Lemma run_steps (inputs : list input) (r r' : resolver)
    (evs evs' : list event) :
  run r evs inputs = Some (r', evs') -> steps r r'.
Proof.
  revert r evs. induction inputs as [|i inputs IH]; intros r evs; simpl.
  - intros H; inversion H; subst. constructor.
  - destruct (step r i) as [o|] eqn:E; [|discriminate]. intros H.
    apply IH in H. eapply steps_trans; [|exact H].
    eapply steps_step; [constructor | exact E].
Qed.

(** ** Keys are drawn once *)

Lemma fresh_keys_distinct (n i j : nat) :
  NoDup (map fresh_key (seq 0 n)) -> i < n -> j < n ->
  fresh_key i = fresh_key j -> i = j.
Proof.
  intros Hnd Hi Hj E. rewrite NoDup_nth_error in Hnd. apply Hnd.
  - now rewrite length_map, length_seq.
  - rewrite !nth_error_fresh_keys by assumption. simpl. now rewrite E.
Qed.

(** C6: a [(name, address)] pair that was in the set under key [k], then
    in no backend of the set, then in the set again, sits under a key
    different from [k] the second time: that key is the base64 text of
    a later [randomBytes] call, and [randomBytes] is taken never to
    have returned the same nine bytes twice to this resolver. *)
Theorem rediscovered_key_is_new (r0 r1 r2 : resolver) (k k' : string)
    (b b' : backend) :
  reachable r0 ->
  Obj.get k (vmr_backends r0) = Some b ->
  steps r0 r1 ->
  (forall k1 b1, Obj.get k1 (vmr_backends r1) = Some b1 ->
                 endpoint_of b1 <> endpoint_of b) ->
  steps r1 r2 ->
  Obj.get k' (vmr_backends r2) = Some b' ->
  endpoint_of b' = endpoint_of b ->
  NoDup (map (randomBytes 9) (seq 0 (rng r2))) ->
  k' <> k.
Proof.
  intros Hr G H01 Habs H12 G' E Hnd. apply fresh_keys_NoDup in Hnd.
  destruct (reachable_keyed _ Hr _ _ G) as (_ & j & Hj & ->).
  assert (Hd : drawn_since (rng r1) (endpoint_of b) r2).
  { apply (steps_drawn_since _ _ r1 r2); auto.
    intros k1 b1 G1 E1. exfalso. eapply Habs; eauto. }
  destruct (Hd _ _ G' E) as (j' & Hj' & ->).
  pose proof (steps_rng _ _ H01). intros Ek.
  apply (fresh_keys_distinct (rng r2)) in Ek; auto; lia.
Qed.

(** ** Stopping *)

Lemma state_stopping_events (r : resolver) :
  keyed r ->
  snd (state_stopping r) = map EvRemoved (Obj.keys (vmr_backends r)).
Proof.
  intros Hk. unfold state_stopping; simpl.
  assert (H : forall ks, incl ks (Obj.keys (vmr_backends r)) ->
     map (fun b => EvRemoved (be_key b))
       (flat_map
          (fun be => match Obj.get be (vmr_backends r) with
                     | Some b => [b]
                     | None => []
                     end) ks)
     = map EvRemoved ks).
  { induction ks as [|k ks IH]; intros Hincl; simpl; auto.
    destruct (in_keys_get k (vmr_backends r)) as [b G];
      [apply Hincl; now left|].
    rewrite G. simpl. destruct (Hk _ _ G) as [-> _].
    f_equal. apply IH. intros x Hx. apply Hincl. now right. }
  apply H, incl_refl.
Qed.

(** C7: [stop()] in the 'running' state emits one [removed] event for
    each key of [vmr_backends], in the order of [Object.keys], and
    nothing else; the keys are pairwise distinct; [vmr_backends] is then
    empty, and it still is when the machine gets to 'stopped', so
    [list()] returns an empty object. *)
Theorem stop_running_retracts_all (r : resolver) :
  reachable r ->
  fsm_state r = running ->
  exists r1 r2,
    step r Stop
    = Some (Returned r1 (map EvRemoved (Obj.keys (vmr_backends r))))
    /\ NoDup (Obj.keys (vmr_backends r))
    /\ fsm_state r1 = stopping
    /\ Getters.list r1 = []
    /\ step r1 Immediate = Some (Returned r2 [])
    /\ fsm_state r2 = stopped
    /\ Getters.list r2 = [].
Proof.
  intros Hr Hs.
  pose proof (reachable_keyed _ Hr) as Hk.
  pose proof (state_stopping_events
                (set_fsm stopping (S (fsm_handle r))
                   (clearInterval (fsm_handle r) r)) Hk) as Hev.
  simpl in Hev.
  eexists. eexists. split; [|split; [|split; [|split; [|split]]]].
  - simpl. unfold stop, isInState. rewrite Hs. simpl.
    unfold gotoState. simpl. rewrite Nat.eqb_refl. simpl.
    rewrite <- Hev. reflexivity.
  - now apply reachable_NoDup.
  - reflexivity.
  - reflexivity.
  - simpl. unfold gotoState. simpl. rewrite Nat.eqb_refl. reflexivity.
  - split; reflexivity.
Qed.

(** ** A poll that fails *)

(** C8: when a request made by the timer of 'running' fails while the
    machine is in 'running', the callback only resets [vmr_lastPoll]:
    it emits nothing, [vmr_backends] (and with it [list()]) and the
    timers are as before, and the state is still 'running'. *)
Theorem running_fetch_failure_is_silent (r : resolver) (n : nat)
    (c : closure) (err : string) :
  fsm_state r = running ->
  nth_error (pending r) n = Some c ->
  cl_origin c = FromRunning ->
  exists r',
    step r (Fetched n (FetchErr err)) = Some (Returned r' [])
    /\ r' = set_lastPoll None (set_pending (remove_nth n (pending r)) r)
    /\ vmr_backends r' = vmr_backends r
    /\ Getters.list r' = Getters.list r
    /\ intervals r' = intervals r
    /\ fsm_state r' = running.
Proof.
  intros Hs Hn Ho. eexists. split; [|split; [reflexivity|]].
  - simpl. rewrite Hn. unfold on_fetched. rewrite Ho. reflexivity.
  - simpl. auto.
Qed.

(** ** The poll guard *)

Lemma filter_remove_nth {A} (p : A -> bool) (n : nat) (l : list A)
    (c : A) :
  nth_error l n = Some c ->
  List.length (filter p l)
  = List.length (filter p (remove_nth n l)) + (if p c then 1 else 0).
Proof.
  revert n. induction l as [|x l IH]; intros [|n]; simpl; try discriminate.
  - intros H; inversion H; subst. destruct (p c); simpl; lia.
  - intros H. specialize (IH _ H). destruct (p x); simpl; lia.
Qed.

Lemma diffAndEmit_poll_guarded (r : resolver) :
  poll_guarded r -> poll_guarded (fst (diffAndEmit r)).
Proof.
  unfold poll_guarded.
  destruct (diffAndEmit_frame r) as (_ & _ & Hl & _ & _ & _ & Hi & Hp).
  cbv zeta in *. now rewrite Hl, Hi, Hp.
Qed.

Lemma enter_poll_guarded (s : fsm_state_name) (r : resolver) :
  poll_guarded r -> poll_guarded (fst (enter s r)).
Proof.
  intros [Hi Hp]. destruct s; unfold enter.
  - split; assumption.
  - split; [assumption|]. simpl. rewrite filter_app, length_app. simpl.
    rewrite <- Hp. lia.
  - pose proof (diffAndEmit_poll_guarded
                  (set_fsm running (S (fsm_handle r)) r)) as H.
    destruct (diffAndEmit (set_fsm running (S (fsm_handle r)) r))
      as [r' evs].
    destruct H as [Hi' Hp']; [split; assumption|]. simpl in *.
    split; [|assumption]. simpl. intros c Hc. apply in_app_or in Hc.
    destruct Hc as [Hc|[<-|[]]]; auto.
  - split; [|assumption]. simpl. intros c Hc. apply in_app_or in Hc.
    destruct Hc as [Hc|[<-|[]]]; auto.
  - split; assumption.
Qed.

Lemma gotoState_poll_guarded (h : nat) (s : fsm_state_name) (r : resolver) :
  poll_guarded r -> poll_guarded (outcome_state (gotoState h s r)).
Proof.
  intros H. unfold gotoState. destruct (_ || _); [|exact H].
  pose proof (enter_poll_guarded s r H) as H'. destruct (enter s r).
  exact H'.
Qed.

Lemma clearInterval_poll_guarded (h : nat) (r : resolver) :
  poll_guarded r -> poll_guarded (clearInterval h r).
Proof.
  intros [Hi Hp]. split; [|assumption]. simpl. intros c Hc.
  apply filter_In in Hc. now apply Hi.
Qed.

Lemma step_poll_guarded (r : resolver) (i : input) (o : outcome) :
  poll_guarded r -> step r i = Some o -> poll_guarded (outcome_state o).
Proof.
  intros Hg. destruct i as [| | |n now|n res]; simpl.
  - intros H; inversion H; subst. unfold start.
    destruct (isInState stopped r);
      [now apply gotoState_poll_guarded | exact Hg].
  - intros H; inversion H; subst. unfold stop.
    destruct (_ || _); [|exact Hg].
    now apply gotoState_poll_guarded, clearInterval_poll_guarded.
  - destruct (isInState stopping r); intros H; inversion H; subst.
    now apply gotoState_poll_guarded.
  - destruct (nth_error (intervals r) n) as [c|] eqn:Hn; intros H;
      inversion H; subst.
    unfold on_tick. destruct Hg as [Hi Hp].
    destruct (vmr_lastPoll r) eqn:Hl; simpl.
    + split; [assumption | now rewrite Hl].
    + split; [assumption|]. simpl.
      rewrite filter_app, length_app, Hp. simpl.
      apply nth_error_In in Hn. now rewrite (Hi _ Hn).
  - destruct (nth_error (pending r) n) as [c|] eqn:Hn; intros H;
      inversion H; subst.
    destruct Hg as [Hi Hp].
    pose proof (filter_remove_nth issued_by_tick _ _ _ Hn) as Hrm.
    unfold on_fetched, issued_by_tick at 3 in Hrm.
    unfold on_fetched.
    destruct (cl_origin c) eqn:Ho.
    + assert (Hg' : poll_guarded (set_pending (remove_nth n (pending r)) r)).
      { split; [assumption|]. simpl. lia. }
      destruct res as [err|vms].
      * destruct (isInState starting _); [|exact Hg'].
        now apply gotoState_poll_guarded.
      * now apply gotoState_poll_guarded.
    + assert (Hg' : poll_guarded
                      (set_lastPoll None
                         (set_pending (remove_nth n (pending r)) r))).
      { split; [assumption|]. simpl. destruct (vmr_lastPoll r); lia. }
      destruct res as [err|vms]; [exact Hg'|].
      pose proof (diffAndEmit_poll_guarded
                    (set_discovered_backends (discovered vms)
                       (set_lastPoll None
                          (set_pending (remove_nth n (pending r)) r))) Hg')
        as H'.
      destruct (diffAndEmit _). exact H'.
    + assert (Hg' : poll_guarded
                      (set_lastPoll None
                         (set_pending (remove_nth n (pending r)) r))).
      { split; [assumption|]. simpl. destruct (vmr_lastPoll r); lia. }
      destruct res as [err|vms]; [exact Hg'|].
      apply gotoState_poll_guarded.
      exact (clearInterval_poll_guarded _ _ Hg').
Qed.

Lemma reachable_poll_guarded (r : resolver) : reachable r -> poll_guarded r.
Proof.
  intros [port H]. apply (steps_invariant poll_guarded) with (2 := H).
  - intros; eapply step_poll_guarded; eauto.
  - split; simpl; [tauto | reflexivity].
Qed.

(** C10: at most one request made by a timer tick is outstanding at any
    time, and a tick of any timer (the one of 'running' or the one of
    'failed') that fires while such a request is outstanding returns at
    once: no request is made, nothing is queued, the resolver is left
    exactly as it was. *)
Theorem tick_skipped_while_polling (r : resolver) :
  reachable r ->
  List.length (filter issued_by_tick (pending r)) <= 1
  /\ (forall n c now,
        nth_error (intervals r) n = Some c ->
        (exists p, In p (pending r) /\ issued_by_tick p = true) ->
        step r (Tick n now) = Some (Returned r [])).
Proof.
  intros Hr. destruct (reachable_poll_guarded _ Hr) as [Hi Hp]. split.
  - rewrite Hp. destruct (vmr_lastPoll r); lia.
  - intros n c now Hn (p & Hin & Hp'). simpl. rewrite Hn. unfold on_tick.
    destruct (vmr_lastPoll r); [reflexivity|]. exfalso.
    assert (Hf : In p (filter issued_by_tick (pending r)))
      by (apply filter_In; auto).
    destruct (filter issued_by_tick (pending r)); [contradiction|].
    discriminate.
Qed.

(** ** A request that outlives [stop()] *)

Lemma unknown_empty (d : list endpoint) : unknown [] d = d.
Proof.
  unfold unknown. induction d as [|e d IH]; simpl; auto.
  f_equal. exact IH.
Qed.

Lemma install_nil_iff (port : Z) (a : list (string * endpoint)) :
  install port a [] = [] <-> a = [].
Proof.
  split; [|intros ->; reflexivity].
  destruct a as [|[k e] a]; auto. intros H. exfalso.
  assert (Hin : In k (Obj.keys (install port ((k, e) :: a) [])))
    by (apply install_keys; left; now left).
  rewrite H in Hin. contradiction.
Qed.

(** Reconciling against an empty set: every discovered endpoint gets a
    key of its own and an [added] event, nothing is removed. *)
Lemma diffAndEmit_from_empty (r : resolver) :
  vmr_backends r = [] ->
  let r' := fst (diffAndEmit r) in
  snd (diffAndEmit r)
  = map (fun j => EvAdded (fresh_key j)
                    (Obj.get (fresh_key j) (vmr_backends r')))
      (seq (rng r) (List.length (vmr_discovered_backends r)))
  /\ (vmr_backends r' = [] <-> vmr_discovered_backends r = []).
Proof.
  intros Hb. cbv zeta. split.
  - rewrite diffAndEmit_events, diffAndEmit_lastAdded, Hb, unknown_empty.
    unfold diff_removed. simpl. now rewrite app_nil_r, map_map.
  - rewrite diffAndEmit_backends, Hb, install_nil_iff.
    rewrite <- (assign_snd [] (rng r) (vmr_discovered_backends r)) at 2.
    destruct (assign [] (rng r) (vmr_discovered_backends r)); simpl;
      split; congruence.
Qed.

(** The callback of a request made by the timer of 'running' applies a
    successful answer whatever state the machine is in. *)
Lemma stale_running_fetch (r : resolver) (n : nat) (c : closure)
    (vms : list vm) :
  vmr_backends r = [] ->
  nth_error (pending r) n = Some c ->
  cl_origin c = FromRunning ->
  exists r3,
    step r (Fetched n (FetchOk vms))
    = Some (Returned r3
              (map (fun j => EvAdded (fresh_key j)
                               (Obj.get (fresh_key j) (vmr_backends r3)))
                 (seq (rng r) (List.length (discovered vms)))))
    /\ fsm_state r3 = fsm_state r
    /\ (vmr_backends r3 = [] <-> discovered vms = []).
Proof.
  intros Hb Hn Ho.
  pose (r0 := set_discovered_backends (discovered vms)
                (set_lastPoll None
                   (set_pending (remove_nth n (pending r)) r))).
  destruct (diffAndEmit_from_empty r0 Hb) as [He Hiff].
  destruct (diffAndEmit_frame r0) as (_ & _ & _ & _ & Hst & _).
  cbv zeta in *.
  assert (Hstep : step r (Fetched n (FetchOk vms))
                  = Some (Returned (fst (diffAndEmit r0))
                            (snd (diffAndEmit r0)))).
  { unfold step. rewrite Hn. unfold on_fetched. rewrite Ho. cbv zeta.
    fold r0. now destruct (diffAndEmit r0). }
  exists (fst (diffAndEmit r0)). split; [|split].
  - rewrite Hstep, He. reflexivity.
  - exact Hst.
  - exact Hiff.
Qed.

(** ** The getters *)

(** C2, as the code has it: [count()] reads the property [length] of a
    plain object whose own properties are the keys drawn by
    [randomBytes], twelve characters each, so it returns [undefined]
    whatever the number of backends is, and never that number. *)
Theorem count_is_undefined (r : resolver) :
  reachable r ->
  Getters.count r = JUndefined
  /\ Getters.count r
     <> JNumber (Z.of_nat (List.length (Obj.keys (vmr_backends r)))).
Proof.
  intros Hr. assert (H : Getters.count r = JUndefined).
  { unfold Getters.count.
    destruct (Obj.get "length"%string (vmr_backends r)) as [b|] eqn:G; auto.
    destruct (reachable_keyed _ Hr _ _ G) as (_ & j & _ & E).
    symmetry in E. now apply fresh_key_not_length in E. }
  split; [assumption | rewrite H; discriminate].
Qed.

(** C3, as the code has it: nothing assigns [vmr_last_error], so
    [getLastError()] returns [undefined] in every reachable state, in
    particular right after a request has failed. *)
Theorem getLastError_is_undefined (r : resolver) :
  reachable r ->
  Getters.getLastError r = JUndefined
  /\ (forall n err o,
        step r (Fetched n (FetchErr err)) = Some o ->
        Getters.getLastError (outcome_state o) = JUndefined
        /\ Getters.getLastError (outcome_state o) <> JString err).
Proof.
  assert (H : forall r0, reachable r0 -> Getters.getLastError r0 = JUndefined).
  { intros r0 [port Hs]. unfold Getters.getLastError.
    assert (He : vmr_last_error r0 = None).
    { apply (steps_invariant (fun x => vmr_last_error x = None))
        with (2 := Hs); [|reflexivity].
      intros x i o Hx Hstep. apply step_evolves, evolves_last_error in Hstep.
      congruence. }
    now rewrite He. }
  intros Hr. split; [now apply H|]. intros n err o Hstep.
  assert (Ho : Getters.getLastError (outcome_state o) = JUndefined).
  { apply H. eapply reachable_steps; [exact Hr|].
    eapply steps_step; [constructor | exact Hstep]. }
  split; [assumption | rewrite Ho; discriminate].
Qed.

(** ** More about [getBackends] and [diffAndEmit] *)


Lemma assign_fresh_in (old : obj backend) (c : nat) (d : list endpoint)
    (i : nat) :
  i < List.length (unknown old d) ->
  exists e, In (fresh_key (c + i), e) (assign old c d).
Proof.
  revert c i. unfold unknown.
  induction d as [|e0 d IH]; intros c i; simpl; [lia|].
  destruct (find_key old e0) as [k0|]; simpl; intros Hi.
  - destruct (IH c i Hi) as [e He]. eauto.
  - destruct i as [|i].
    + exists e0. left. now rewrite Nat.add_0_r.
    + destruct (IH (S c) i) as [e He]; [lia|]. exists e. right.
      now rewrite Nat.add_succ_r.
Qed.

(** The key found for a discovered endpoint is a key of the new set. *)
Lemma matched_key_in_new (r : resolver) (e : endpoint) (k : string) :
  In e (vmr_discovered_backends r) ->
  find_key (vmr_backends r) e = Some k ->
  In k (Obj.keys (vmr_backends (fst (diffAndEmit r)))).
Proof.
  intros Hin F. rewrite diffAndEmit_backends. apply install_keys. left.
  destruct (in_assign (vmr_backends r) (rng r) _ _ Hin) as [k' A].
  destruct (assign_in _ _ _ _ _ A) as [_ [F'|[F' _]]]; [|congruence].
  assert (k' = k) by congruence. subst k'.
  apply in_map_iff. now exists (k, e).
Qed.

Lemma removed_event_iff (r : resolver) (k : string) :
  In (EvRemoved k) (snd (diffAndEmit r)) <->
  In k (Obj.keys (vmr_backends r))
  /\ Obj.get k (vmr_backends (fst (diffAndEmit r))) = None.
Proof.
  rewrite diffAndEmit_events, in_app_iff. unfold diff_removed. split.
  - intros [H|H].
    + apply in_map_iff in H. destruct H as (x & Hx & _). discriminate.
    + apply in_map_iff in H. destruct H as (x & Hx & Hin).
      inversion Hx; subst. apply filter_In in Hin. destruct Hin as [Hk Hu].
      split; auto.
      destruct (Obj.get k (vmr_backends (fst (diffAndEmit r))));
        [discriminate | reflexivity].
  - intros [Hk Hg]. right. apply in_map. apply filter_In. split; auto.
    now rewrite Hg.
Qed.

(** X2: every backend of the set [diffAndEmit] installs was built from
    an endpoint of the discovery result, carries the configured port,
    and is stored under its own [key] field. *)
Theorem reconciled_backend_is_discovered (r : resolver) (k : string)
    (b : backend) :
  Obj.get k (vmr_backends (fst (diffAndEmit r))) = Some b ->
  In (endpoint_of b) (vmr_discovered_backends r)
  /\ be_port b = vmr_backend_port r
  /\ be_key b = k.
Proof.
  only_stated.
  intros G. apply diffAndEmit_get in G. destruct G as (e & A & ->).
  rewrite endpoint_of_mk_backend. apply assign_in in A. tauto.
Qed.

(** X3: a discovered endpoint keeps the key that the inner search of
    [diffAndEmit] finds for it in the current set: that key is a key of
    the new set, the backend under it carries it, and no [removed]
    event is emitted for it; and when none of the keys drawn in the run
    is a key of the current set, the backend under it is the
    endpoint's own, with the configured port. *)
Theorem reported_endpoint_keeps_key (r : resolver) (e : endpoint)
    (k : string) :
  In e (vmr_discovered_backends r) ->
  find_key (vmr_backends r) e = Some k ->
  (exists b, Obj.get k (vmr_backends (fst (diffAndEmit r))) = Some b
             /\ be_key b = k)
  /\ ~ In (EvRemoved k) (snd (diffAndEmit r))
  /\ ((forall k', In k' (vmr_lastAdded (fst (diffAndEmit r))) ->
                  Obj.get k' (vmr_backends r) = None) ->
      Obj.get k (vmr_backends (fst (diffAndEmit r)))
      = Some (mk_backend (vmr_backend_port r) e k)).
Proof.
  intros Hin F. pose proof (matched_key_in_new _ _ _ Hin F) as Hk.
  destruct (in_keys_get _ _ Hk) as [b G]. split; [|split].
  - exists b. split; auto.
    apply diffAndEmit_get in G. now destruct G as (e' & _ & ->).
  - rewrite removed_event_iff. intros [_ Hn]. congruence.
  - intros Hnew. rewrite G.
    destruct (diffAndEmit_get _ _ _ G) as (e1 & A & ->).
    destruct (find_key_some _ _ _ F) as (ob & Gk & E).
    destruct (assign_in _ _ _ _ _ A) as [_ [F1|(_ & j & Hj & Ej)]].
    + destruct (find_key_some _ _ _ F1) as (ob1 & G1 & E1).
      assert (ob1 = ob) by congruence. subst ob1. congruence.
    + exfalso. rewrite (Hnew k) in Gk; [discriminate|].
      rewrite diffAndEmit_lastAdded, Ej. apply in_map. apply in_seq. lia.
Qed.

(** X4: a [removed] event is only emitted for a key of the current set
    that is gone from the new set and on which the search for no
    discovered endpoint ended; and when the backend under that key is
    the only one of the current set with its name and address, no
    endpoint of the discovery result has that name and address. *)
Theorem removed_key_was_unmatched (r : resolver) (k : string) :
  In (EvRemoved k) (snd (diffAndEmit r)) ->
  In k (Obj.keys (vmr_backends r))
  /\ Obj.get k (vmr_backends (fst (diffAndEmit r))) = None
  /\ (forall e, In e (vmr_discovered_backends r) ->
                find_key (vmr_backends r) e <> Some k)
  /\ (forall ob,
        Obj.get k (vmr_backends r) = Some ob ->
        (forall k' ob', Obj.get k' (vmr_backends r) = Some ob' ->
                        endpoint_of ob' = endpoint_of ob -> k' = k) ->
        ~ In (endpoint_of ob) (vmr_discovered_backends r)).
Proof.
  intros H. apply removed_event_iff in H. destruct H as [Hk Hn].
  assert (Hfind : forall e, In e (vmr_discovered_backends r) ->
                            find_key (vmr_backends r) e <> Some k).
  { intros e Hin F. apply (matched_key_in_new _ _ _ Hin) in F.
    apply get_none_iff in Hn. contradiction. }
  repeat split; auto. intros ob G Huniq Hin.
  destruct (find_key (vmr_backends r) (endpoint_of ob)) as [k'|] eqn:F.
  - destruct (find_key_some _ _ _ F) as (ob' & G' & E').
    rewrite (Huniq _ _ G' E') in F. exact (Hfind _ Hin F).
  - exact (find_key_found _ _ _ _ G eq_refl F).
Qed.

(** X5: an [added] event never carries [undefined]: its second argument
    is the backend stored under the event's key, built from a
    discovered endpoint with the configured port, and the key is the
    one drawn by a [randomBytes] call of this run. *)
Theorem added_event_payload (r : resolver) (k : string)
    (ob : option backend) :
  In (EvAdded k ob) (snd (diffAndEmit r)) ->
  exists e j,
    In e (vmr_discovered_backends r)
    /\ ob = Some (mk_backend (vmr_backend_port r) e k)
    /\ Obj.get k (vmr_backends (fst (diffAndEmit r))) = ob
    /\ rng r <= j < rng (fst (diffAndEmit r))
    /\ k = fresh_key j.
Proof.
  rewrite diffAndEmit_events, in_app_iff. intros [H|H].
  - apply in_map_iff in H. destruct H as (k0 & E & Hin).
    inversion E; subst k0 ob. clear E.
    rewrite diffAndEmit_lastAdded in Hin. apply in_map_iff in Hin.
    destruct Hin as (j & <- & Hj). apply in_seq in Hj.
    destruct (assign_fresh_in (vmr_backends r) (rng r)
                (vmr_discovered_backends r) (j - rng r)) as [e0 A0];
      [lia|].
    replace (rng r + (j - rng r)) with j in A0 by lia.
    assert (Hk : In (fresh_key j)
                   (Obj.keys (vmr_backends (fst (diffAndEmit r))))).
    { rewrite diffAndEmit_backends. apply install_keys. left.
      apply in_map_iff. now exists (fresh_key j, e0). }
    destruct (in_keys_get _ _ Hk) as [b G].
    destruct (diffAndEmit_get _ _ _ G) as (e & A & ->).
    exists e, j. rewrite diffAndEmit_rng.
    repeat split; auto; try lia. now apply assign_in in A.
  - apply in_map_iff in H. destruct H as (x & Hx & _). discriminate.
Qed.

(** X6: an empty discovery result retracts everything: one [removed]
    event per key of the current set, no [added] event, no call of
    [randomBytes], and an empty set afterwards. *)
Theorem empty_discovery_removes_all (r : resolver) :
  vmr_discovered_backends r = [] ->
  snd (diffAndEmit r) = map EvRemoved (Obj.keys (vmr_backends r))
  /\ vmr_backends (fst (diffAndEmit r)) = []
  /\ vmr_lastAdded (fst (diffAndEmit r)) = []
  /\ rng (fst (diffAndEmit r)) = rng r.
Proof.
  intros Hd.
  assert (Hb : vmr_backends (fst (diffAndEmit r)) = [])
    by (now rewrite diffAndEmit_backends, Hd).
  assert (Ha : vmr_lastAdded (fst (diffAndEmit r)) = [])
    by (now rewrite diffAndEmit_lastAdded, Hd).
  repeat split; auto.
  - rewrite diffAndEmit_events, Ha, Hb. unfold diff_removed. simpl.
    f_equal. induction (Obj.keys (vmr_backends r)) as [|k ks IH]; simpl;
      congruence.
  - rewrite diffAndEmit_rng, Hd. simpl. lia.
Qed.

(** X7: when the discovery result does not repeat an endpoint missing
    from the current set and the keys drawn are pairwise distinct and
    not in use, every discovered endpoint is in the new set, under a
    key that the next search for it finds. *)
Theorem discovered_endpoints_all_advertised (r : resolver) (e : endpoint) :
  NoDup (unknown (vmr_backends r) (vmr_discovered_backends r)) ->
  NoDup (vmr_lastAdded (fst (diffAndEmit r))) ->
  (forall k, In k (vmr_lastAdded (fst (diffAndEmit r))) ->
             Obj.get k (vmr_backends r) = None) ->
  In e (vmr_discovered_backends r) ->
  exists k,
    Obj.get k (vmr_backends (fst (diffAndEmit r)))
    = Some (mk_backend (vmr_backend_port r) e k)
    /\ find_key (vmr_backends (fst (diffAndEmit r))) e = Some k.
Proof.
  intros Hd Hk Hnew Hin.
  rewrite diffAndEmit_lastAdded in Hk, Hnew.
  pose proof (assign_consistent _ _ _ Hd Hk Hnew) as Hc.
  pose proof (install_find_key (vmr_backend_port r) _ Hc) as Hfind.
  rewrite <- diffAndEmit_backends in Hfind.
  destruct (in_assign (vmr_backends r) (rng r) _ _ Hin) as [k A].
  exists k. split; [|now apply Hfind].
  destruct (find_key_some _ _ _ (Hfind _ _ A)) as (ob & G & E).
  destruct (diffAndEmit_get _ _ _ G) as (e' & _ & ->).
  rewrite endpoint_of_mk_backend in E. now subst e'.
Qed.

(** X8: [vmr_lastBackends] keeps the set as it was before the last run
    that emitted something: a run without events leaves it alone, a run
    with events stores the set it started from. *)
Theorem lastBackends_tracks_last_change (r : resolver) :
  (snd (diffAndEmit r) = [] ->
   vmr_lastBackends (fst (diffAndEmit r)) = vmr_lastBackends r)
  /\ (snd (diffAndEmit r) <> [] ->
      vmr_lastBackends (fst (diffAndEmit r)) = vmr_backends r).
Proof.
  unfold diffAndEmit, diff_events. simpl.
  destruct (added (diff_loop _ _ _ _)) as [|a l];
    destruct (diff_removed _ _) as [|x rs]; simpl;
    split; intros H; try reflexivity; try discriminate.
  now contradiction H.
Qed.

(** ** The events of a run *)

Lemma diffAndEmit_effect (r : resolver) :
  effect r (Returned (fst (diffAndEmit r)) (snd (diffAndEmit r))).
Proof.
  right; right. exists (vmr_discovered_backends r).
  unfold outcome_state, outcome_events.
  split; [apply diffAndEmit_backends|]. split; [apply diffAndEmit_rng|].
  rewrite diffAndEmit_events, diffAndEmit_lastAdded, diffAndEmit_backends.
  reflexivity.
Qed.

Lemma enter_effect (s : fsm_state_name) (r : resolver) :
  effect r (Returned (fst (enter s r)) (snd (enter s r))).
Proof.
  destruct s; unfold enter.
  - left. simpl. auto.
  - left. simpl. auto.
  - pose proof (diffAndEmit_effect
                  (set_fsm running (S (fsm_handle r)) r)) as H.
    destruct (diffAndEmit (set_fsm running (S (fsm_handle r)) r)).
    exact H.
  - left. simpl. auto.
  - right; left. simpl. auto.
Qed.

Lemma gotoState_effect (h : nat) (s : fsm_state_name) (r : resolver) :
  effect r (gotoState h s r).
Proof.
  unfold gotoState. destruct (_ || _).
  - pose proof (enter_effect s r) as H. destruct (enter s r). exact H.
  - left. simpl. auto.
Qed.

Lemma step_effect (r : resolver) (i : input) (o : outcome) :
  step r i = Some o -> effect r o.
Proof.
  destruct i as [| | |n now|n res]; simpl.
  - intros H; inversion H; subst. unfold start.
    destruct (isInState stopped r);
      [apply gotoState_effect | left; simpl; auto].
  - intros H; inversion H; subst. unfold stop.
    destruct (_ || _); [|left; simpl; auto].
    exact (gotoState_effect _ _ (clearInterval (fsm_handle r) r)).
  - destruct (isInState stopping r); intros H; inversion H; subst.
    apply gotoState_effect.
  - destruct (nth_error (intervals r) n) as [c|]; intros H;
      inversion H; subst.
    unfold on_tick. destruct (vmr_lastPoll r); left; simpl; auto.
  - destruct (nth_error (pending r) n) as [c|]; intros H;
      inversion H; subst.
    unfold on_fetched. destruct (cl_origin c), res as [err|vms].
    + destruct (isInState starting _); [|left; simpl; auto].
      exact (gotoState_effect _ _
               (set_pending (remove_nth n (pending r)) r)).
    + exact (gotoState_effect _ _
               (set_discovered_backends (discovered vms)
                  (set_pending (remove_nth n (pending r)) r))).
    + left; simpl; auto.
    + pose proof (diffAndEmit_effect
                    (set_discovered_backends (discovered vms)
                       (set_lastPoll None
                          (set_pending (remove_nth n (pending r)) r))))
        as H'.
      destruct (diffAndEmit _). exact H'.
    + left; simpl; auto.
    + exact (gotoState_effect _ _
               (set_discovered_backends (discovered vms)
                  (clearInterval (cl_handle c)
                     (set_lastPoll None
                        (set_pending (remove_nth n (pending r)) r))))).
Qed.

Lemma stopping_events_keys (r : resolver) :
  keyed r ->
  stopping_events (vmr_backends r)
  = map EvRemoved (Obj.keys (vmr_backends r)).
Proof. intros H. exact (state_stopping_events r H). Qed.

Lemma in_apply_event (live : list string) (ev : event) (k : string) :
  In k (apply_event live ev) <->
  match ev with
  | EvAdded k' _ => In k live \/ k = k'
  | EvRemoved k' => In k live /\ k <> k'
  end.
Proof.
  only_stated.
  destruct ev as [k' b|k']; simpl.
  - destruct (existsb (String.eqb k') live) eqn:E.
    + split; auto. intros [H| ->]; auto.
      apply existsb_exists in E. destruct E as (x & Hx & Ex).
      apply String.eqb_eq in Ex. now subst x.
    + rewrite in_app_iff. simpl. intuition.
  - rewrite filter_In. destruct (String.eqb_spec k' k) as [->|Hne]; simpl;
      intuition congruence.
Qed.

Lemma in_fold_added (ks : list string) (f : string -> option backend)
    (live : list string) (k : string) :
  In k (fold_left apply_event (map (fun x => EvAdded x (f x)) ks) live) <->
  In k live \/ In k ks.
Proof.
  only_stated.
  revert live. induction ks as [|x ks IH]; intros live; simpl; [tauto|].
  rewrite IH.
  rewrite (in_apply_event live (EvAdded x (f x)) k). intuition.
Qed.

Lemma in_fold_removed (rs : list string) (live : list string) (k : string) :
  In k (fold_left apply_event (map EvRemoved rs) live) <->
  In k live /\ ~ In k rs.
Proof.
  only_stated.
  revert live. induction rs as [|x rs IH]; intros live; simpl; [tauto|].
  rewrite IH.
  rewrite (in_apply_event live (EvRemoved x) k). intuition.
Qed.

(** The subscriber's set follows [vmr_backends] through one turn. *)
Lemma effect_replay (r : resolver) (o : outcome) (live : list string) :
  keyed r -> effect r o ->
  (forall k, In k live <-> In k (Obj.keys (vmr_backends r))) ->
  forall k,
    In k (fold_left apply_event (outcome_events o) live) <->
    In k (Obj.keys (vmr_backends (outcome_state o))).
Proof.
  only_stated.
  intros Hk [(Hb & _ & He)|[(Hb & _ & He)|(d & Hb & _ & He)]] Hl k;
    rewrite He, Hb.
  - simpl. apply Hl.
  - rewrite (stopping_events_keys r Hk), in_fold_removed, Hl. simpl. tauto.
  - unfold reconcile_events. cbv zeta.
    rewrite fold_left_app, in_fold_removed, in_fold_added, Hl.
    unfold diff_removed. rewrite filter_In.
    set (new := install (vmr_backend_port r)
                  (assign (vmr_backends r) (rng r) d) []).
    split.
    + intros [[Hin|Hin] Hnot].
      * destruct (Obj.get k new) as [b|] eqn:G.
        -- eapply get_some_in_keys; eauto.
        -- exfalso. apply Hnot. auto.
      * apply in_map_iff in Hin. destruct Hin as (j & <- & Hj).
        apply in_seq in Hj.
        destruct (assign_fresh_in (vmr_backends r) (rng r) d (j - rng r))
          as [e A]; [lia|].
        replace (rng r + (j - rng r)) with j in A by lia.
        apply install_keys. left. apply in_map_iff.
        now exists (fresh_key j, e).
    + intros Hin. destruct (in_keys_get _ _ Hin) as [b G]. split.
      * apply install_keys in Hin. destruct Hin as [Hin|[]].
        apply in_map_iff in Hin. destruct Hin as ([k0 e] & E & A).
        simpl in E. subst k0.
        destruct (assign_in _ _ _ _ _ A) as [_ [F|(_ & j & Hj & ->)]].
        -- left. destruct (find_key_some _ _ _ F) as (ob & G' & _).
           eapply get_some_in_keys; eauto.
        -- right. apply in_map. apply in_seq. lia.
      * intros [_ Hu]. rewrite G in Hu. discriminate.
Qed.

Lemma run_replay (inputs : list input) :
  forall r0 evs0 r evs,
    run r0 evs0 inputs = Some (r, evs) ->
    keyed r0 ->
    (forall k, In k (replay evs0) <-> In k (Obj.keys (vmr_backends r0))) ->
    forall k, In k (replay evs) <-> In k (Obj.keys (vmr_backends r)).
Proof.
  induction inputs as [|i inputs IH]; intros r0 evs0 r evs; simpl.
  - intros H; inversion H; subst. auto.
  - destruct (step r0 i) as [o|] eqn:E; [|discriminate].
    intros H Hk Hl. apply (IH _ _ _ _ H).
    + eapply evolves_keyed; eauto using step_evolves.
    + unfold replay. rewrite fold_left_app.
      apply (effect_replay r0 o); auto. now apply step_effect in E.
Qed.

(** X9: a subscriber that adds a key on every [added] event and drops
    it on every [removed] event holds, after any run of the event loop
    from the constructor, exactly the keys of [vmr_backends]. *)
Theorem event_log_replays_to_backends (port : Z) (inputs : list input)
    (r : resolver) (evs : list event) :
  run (VmapiResolver port) [] inputs = Some (r, evs) ->
  forall k, In k (replay evs) <-> In k (Obj.keys (vmr_backends r)).
Proof.
  intros H. apply (run_replay _ _ _ _ _ H).
  - intros k b G. discriminate.
  - simpl. tauto.
Qed.

Lemma effect_draws (r : resolver) (o : outcome) :
  keyed r -> effect r o ->
  List.length (filter is_added (outcome_events o)) + rng r
  = rng (outcome_state o).
Proof.
  assert (Hrem : forall (A : Type) (f : A -> string) (l : list A),
             filter is_added (map (fun x => EvRemoved (f x)) l) = []).
  { intros A f l. induction l; simpl; auto. }
  intros Hk [(_ & Hn & He)|[(_ & Hn & He)|(d & _ & Hn & He)]];
    rewrite He, Hn.
  - reflexivity.
  - unfold stopping_events. now rewrite Hrem.
  - unfold reconcile_events. cbv zeta. rewrite filter_app.
    rewrite (Hrem _ (fun x => x)), app_nil_r.
    assert (Hadd : forall (f : string -> option backend) l,
               filter is_added (map (fun x => EvAdded x (f x)) l)
               = map (fun x => EvAdded x (f x)) l).
    { intros f l. induction l; simpl; congruence. }
    rewrite Hadd, !length_map, length_seq. lia.
Qed.

Lemma run_draws (inputs : list input) :
  forall r0 evs0 r evs,
    run r0 evs0 inputs = Some (r, evs) ->
    keyed r0 ->
    List.length (filter is_added evs0) = rng r0 ->
    List.length (filter is_added evs) = rng r.
Proof.
  induction inputs as [|i inputs IH]; intros r0 evs0 r evs; simpl.
  - intros H; inversion H; subst. auto.
  - destruct (step r0 i) as [o|] eqn:E; [|discriminate].
    intros H Hk Hl. apply (IH _ _ _ _ H).
    + eapply evolves_keyed; eauto using step_evolves.
    + rewrite filter_app, length_app, Hl.
      pose proof (effect_draws r0 o Hk (step_effect _ _ _ E)). lia.
Qed.

(** X10: over any run of the event loop from the constructor, the
    number of [added] events emitted equals the number of
    [randomBytes] calls made: one draw per [added] event. *)
Theorem one_draw_per_added_event (port : Z) (inputs : list input)
    (r : resolver) (evs : list event) :
  run (VmapiResolver port) [] inputs = Some (r, evs) ->
  List.length (filter is_added evs) = rng r.
Proof.
  intros H. apply (run_draws _ _ _ _ _ H); [|reflexivity].
  intros k b G. discriminate.
Qed.

(** ** The machine and its timers *)

Lemma allowed_transition_refl (a : fsm_state_name) :
  allowed_transition a a = true.
Proof. only_stated. now destruct a. Qed.

Lemma enter_fsm (s : fsm_state_name) (r : resolver) :
  fsm_state (fst (enter s r)) = s
  /\ fsm_handle (fst (enter s r)) = S (fsm_handle r)
  /\ vmr_lastPoll (fst (enter s r)) = vmr_lastPoll r.
Proof.
  destruct s; unfold enter; try (simpl; tauto).
  destruct (diffAndEmit_frame (set_fsm running (S (fsm_handle r)) r))
    as (_ & _ & Hl & _ & Hs & Hh & _).
  cbv zeta in *. destruct (diffAndEmit _). simpl in *. tauto.
Qed.

(** The closures alive after entering a state: the ones alive before,
    and the timer or the request the state function makes. *)
Lemma enter_closures (s : fsm_state_name) (r : resolver) (c : closure) :
  In c (pending (fst (enter s r))) \/ In c (intervals (fst (enter s r))) ->
  (In c (pending r) \/ In c (intervals r))
  \/ (cl_handle c = S (fsm_handle r) /\ origin_state (cl_origin c) = s).
Proof.
  destruct s; unfold enter; try (simpl; tauto).
  - simpl. rewrite in_app_iff. simpl. intros [[H|[<-|[]]]|H]; auto.
  - destruct (diffAndEmit_frame (set_fsm running (S (fsm_handle r)) r))
      as (_ & _ & _ & _ & _ & _ & Hi & Hp).
    cbv zeta in *. destruct (diffAndEmit _) as [r' evs]. simpl in *.
    rewrite Hi, Hp, in_app_iff. simpl. intros [H|[H|[<-|[]]]]; auto.
  - simpl. rewrite in_app_iff. simpl. intros [H|[H|[<-|[]]]]; auto.
Qed.

Lemma enter_handles (s : fsm_state_name) (r : resolver) :
  handles_current r -> handles_current (fst (enter s r)).
Proof.
  intros H c Hc. destruct (enter_fsm s r) as (Hs & Hh & _).
  rewrite Hs, Hh. apply enter_closures in Hc.
  destruct Hc as [Hc|[Hc Ho]].
  - destruct (H c Hc) as [Hle _]. split; lia.
  - split; [lia | auto].
Qed.

Lemma handles_subset (r r' : resolver) :
  fsm_handle r' = fsm_handle r ->
  fsm_state r' = fsm_state r ->
  (forall c, In c (pending r') \/ In c (intervals r') ->
             In c (pending r) \/ In c (intervals r)) ->
  handles_current r -> handles_current r'.
Proof.
  only_stated. intros Hh Hs Hsub H c Hc. rewrite Hh, Hs. apply H. auto.
Qed.

Lemma gotoState_handles (h : nat) (s : fsm_state_name) (r : resolver) :
  handles_current r -> handles_current (outcome_state (gotoState h s r)).
Proof.
  intros H. unfold gotoState. destruct (_ || _); [|exact H].
  pose proof (enter_handles s r H) as H'. destruct (enter s r). exact H'.
Qed.

Lemma in_remove_nth {A} (n : nat) (l : list A) (x : A) :
  In x (remove_nth n l) -> In x l.
Proof.
  only_stated. revert n. induction l as [|y l IH]; intros [|n]; simpl; auto.
  intros [H|H]; eauto.
Qed.

Lemma step_handles (r : resolver) (i : input) (o : outcome) :
  handles_current r -> step r i = Some o ->
  handles_current (outcome_state o).
Proof.
  intros Hg. destruct i as [| | |n now|n res]; simpl.
  - intros H; inversion H; subst. unfold start.
    destruct (isInState stopped r);
      [now apply gotoState_handles | exact Hg].
  - intros H; inversion H; subst. unfold stop.
    destruct (_ || _); [|exact Hg]. apply gotoState_handles.
    apply (handles_subset r); auto. simpl. intros c [Hc|Hc]; auto.
    apply filter_In in Hc. tauto.
  - destruct (isInState stopping r); intros H; inversion H; subst.
    now apply gotoState_handles.
  - destruct (nth_error (intervals r) n) as [c|] eqn:Hn; intros H;
      inversion H; subst.
    unfold on_tick. destruct (vmr_lastPoll r); [exact Hg|].
    apply (handles_subset r); auto. simpl. intros c' [Hc|Hc]; auto.
    apply in_app_or in Hc. destruct Hc as [Hc|[<-|[]]]; auto.
    right. eapply nth_error_In; eauto.
  - destruct (nth_error (pending r) n) as [c|] eqn:Hn; intros H;
      inversion H; subst.
    assert (Hg' : forall r', fsm_handle r' = fsm_handle r ->
                             fsm_state r' = fsm_state r ->
                             pending r' = remove_nth n (pending r) ->
                             incl (intervals r') (intervals r) ->
                             handles_current r').
    { intros r' Hh Hs Hp Hi. apply (handles_subset r); auto.
      rewrite Hp. intros c' [Hc|Hc]; [left|right; auto].
      eapply in_remove_nth; eauto. }
    unfold on_fetched. destruct (cl_origin c), res as [err|vms].
    + destruct (isInState starting _);
        [apply gotoState_handles|]; apply Hg'; auto using incl_refl.
    + apply gotoState_handles. apply Hg'; auto using incl_refl.
    + apply Hg'; auto using incl_refl.
    + pose proof (diffAndEmit_frame
                    (set_discovered_backends (discovered vms)
                       (set_lastPoll None
                          (set_pending (remove_nth n (pending r)) r))))
        as (_ & _ & _ & _ & Hs & Hh & Hi & Hp).
      cbv zeta in *. destruct (diffAndEmit _) as [r' evs]. simpl in *.
      apply Hg'; auto. rewrite Hi. apply incl_refl.
    + apply Hg'; auto using incl_refl.
    + apply gotoState_handles. apply Hg'; auto. simpl.
      intros c' Hc. apply filter_In in Hc. tauto.
Qed.

Lemma reachable_handles (r : resolver) : reachable r -> handles_current r.
Proof.
  intros [port H]. apply (steps_invariant handles_current) with (2 := H).
  - intros; eapply step_handles; eauto.
  - intros c [[]|[]].
Qed.

Lemma gotoState_fsm (h : nat) (s : fsm_state_name) (r : resolver) :
  stale_handle_throws = true ->
  (h = fsm_handle r
   /\ fsm_state (outcome_state (gotoState h s r)) = s
   /\ fsm_handle (outcome_state (gotoState h s r)) = S (fsm_handle r))
  \/ (h <> fsm_handle r /\ gotoState h s r = Threw r []).
Proof.
  intros Hstrict. unfold gotoState. rewrite Hstrict. simpl.
  rewrite orb_false_r. destruct (Nat.eqb_spec h (fsm_handle r)); auto.
  left. destruct (enter_fsm s r) as (Hs & Hh & _).
  destruct (enter s r). simpl in *. auto.
Qed.

Lemma step_allowed (r : resolver) (i : input) (o : outcome) :
  stale_handle_throws = true ->
  handles_current r -> step r i = Some o ->
  allowed_transition (fsm_state r) (fsm_state (outcome_state o)) = true.
Proof.
  intros Hstrict Hg. destruct i as [| | |n now|n res]; simpl.
  - intros H; inversion H; subst. unfold start, isInState.
    destruct (fsm_state r) eqn:Hs; simpl; try now rewrite Hs.
    destruct (gotoState_fsm (fsm_handle r) starting r Hstrict)
      as [(_ & -> & _)|[Hne _]]; [reflexivity | congruence].
  - intros H; inversion H; subst. unfold stop, isInState.
    destruct (fsm_state r) eqn:Hs; simpl; try now rewrite Hs.
    + destruct (gotoState_fsm (fsm_handle r) stopping
                  (clearInterval (fsm_handle r) r) Hstrict)
        as [(_ & -> & _)|[Hne _]]; [reflexivity | now contradiction Hne].
    + destruct (gotoState_fsm (fsm_handle r) stopping
                  (clearInterval (fsm_handle r) r) Hstrict)
        as [(_ & -> & _)|[Hne _]]; [reflexivity | now contradiction Hne].
  - unfold isInState. destruct (fsm_state r) eqn:Hs; simpl;
      intros H; inversion H; subst.
    destruct (gotoState_fsm (fsm_handle r) stopped r Hstrict)
      as [(_ & -> & _)|[Hne _]]; [reflexivity | congruence].
  - destruct (nth_error (intervals r) n) as [c|]; intros H;
      inversion H; subst.
    unfold on_tick. destruct (vmr_lastPoll r); simpl;
      apply allowed_transition_refl.
  - destruct (nth_error (pending r) n) as [c|] eqn:Hn; intros H;
      inversion H; subst.
    destruct (Hg c (or_introl (nth_error_In _ _ Hn))) as [_ Hcur].
    unfold on_fetched. destruct (cl_origin c) eqn:Ho, res as [err|vms].
    + unfold isInState. simpl.
      destruct (fsm_state r) eqn:Hs; simpl;
        try (rewrite Hs; reflexivity).
      destruct (gotoState_fsm (fsm_handle r) failed
                  (set_pending (remove_nth n (pending r)) r) Hstrict)
        as [(_ & -> & _)|[Hne _]]; [reflexivity | now contradiction Hne].
    + destruct (gotoState_fsm (cl_handle c) running
                  (set_discovered_backends (discovered vms)
                     (set_pending (remove_nth n (pending r)) r)) Hstrict)
        as [(Hh & -> & _)|[_ ->]].
      * simpl in Hh. rewrite <- (Hcur Hh). reflexivity.
      * apply allowed_transition_refl.
    + apply allowed_transition_refl.
    + pose proof (diffAndEmit_frame
                    (set_discovered_backends (discovered vms)
                       (set_lastPoll None
                          (set_pending (remove_nth n (pending r)) r))))
        as (_ & _ & _ & _ & Hs & _).
      cbv zeta in *. destruct (diffAndEmit _) as [r' evs]. simpl in *.
      rewrite Hs. apply allowed_transition_refl.
    + apply allowed_transition_refl.
    + destruct (gotoState_fsm (cl_handle c) running
                  (set_discovered_backends (discovered vms)
                     (clearInterval (cl_handle c)
                        (set_lastPoll None
                           (set_pending (remove_nth n (pending r)) r))))
                  Hstrict)
        as [(Hh & -> & _)|[_ ->]].
      * simpl in Hh. rewrite <- (Hcur Hh). reflexivity.
      * apply allowed_transition_refl.
Qed.

(** *** The request of [state_starting] *)

Lemma filter_remove_nth_false {A} (p : A -> bool) (n : nat) (l : list A)
    (c : A) :
  nth_error l n = Some c -> p c = false ->
  filter p (remove_nth n l) = filter p l.
Proof.
  only_stated.
  revert n. induction l as [|x l IH]; intros [|n]; simpl; try discriminate.
  - intros H Hc; inversion H; subst. now rewrite Hc.
  - intros H Hc. now rewrite (IH _ H Hc).
Qed.

Lemma enter_pending (s : fsm_state_name) (r : resolver) :
  pending (fst (enter s r))
  = pending r
    ++ match s with
       | starting =>
           [{| cl_origin := FromStarting; cl_handle := S (fsm_handle r) |}]
       | _ => []
       end.
Proof.
  destruct s; unfold enter; try (simpl; now rewrite ?app_nil_r).
  destruct (diffAndEmit_frame (set_fsm running (S (fsm_handle r)) r))
    as (_ & _ & _ & _ & _ & _ & _ & Hp).
  cbv zeta in *. destruct (diffAndEmit _) as [r' evs]. simpl in *.
  now rewrite Hp, app_nil_r.
Qed.

Lemma enter_starting_request (s : fsm_state_name) (r : resolver) :
  filter (fun c => negb (issued_by_tick c)) (pending r) = [] ->
  starting_request (fst (enter s r)).
Proof.
  intros H. unfold starting_request.
  destruct (enter_fsm s r) as (Hs & Hh & _).
  rewrite enter_pending, filter_app, H, Hs, Hh. now destruct s.
Qed.

Lemma gotoState_starting_request (h : nat) (s : fsm_state_name)
    (r : resolver) :
  stale_handle_throws = true ->
  starting_request r ->
  (h = fsm_handle r ->
   filter (fun c => negb (issued_by_tick c)) (pending r) = []) ->
  starting_request (outcome_state (gotoState h s r)).
Proof.
  intros Hstrict Hr Hcur. unfold gotoState. rewrite Hstrict. simpl.
  rewrite orb_false_r. destruct (Nat.eqb_spec h (fsm_handle r)); [|exact Hr].
  pose proof (enter_starting_request s r (Hcur e)) as H.
  destruct (enter s r). exact H.
Qed.

Lemma gotoState_current_starting_request (s : fsm_state_name)
    (r : resolver) :
  filter (fun c => negb (issued_by_tick c)) (pending r) = [] ->
  starting_request (outcome_state (gotoState (fsm_handle r) s r)).
Proof.
  intros H. unfold gotoState. rewrite Nat.eqb_refl. simpl.
  pose proof (enter_starting_request s r H) as H'.
  destruct (enter s r). exact H'.
Qed.

Lemma starting_request_same (r r' : resolver) :
  pending r' = pending r ->
  fsm_state r' = fsm_state r ->
  fsm_handle r' = fsm_handle r ->
  starting_request r -> starting_request r'.
Proof.
  only_stated. unfold starting_request. now intros -> -> ->.
Qed.

(** The closure of [state_starting]'s request holds the machine's
    handle. *)
Lemma starting_request_current (r : resolver) (c : closure) :
  starting_request r ->
  In c (pending r) -> issued_by_tick c = false ->
  fsm_state r = starting
  /\ c = {| cl_origin := FromStarting; cl_handle := fsm_handle r |}.
Proof.
  only_stated. unfold starting_request. intros H Hin Hc.
  assert (Hf : In c (filter (fun c => negb (issued_by_tick c)) (pending r))).
  { apply filter_In. split; [assumption | now rewrite Hc]. }
  rewrite H in Hf. destruct (fsm_state r); simpl in Hf; intuition.
Qed.

Lemma step_starting_request (r : resolver) (i : input) (o : outcome) :
  stale_handle_throws = true ->
  handles_current r -> poll_guarded r -> starting_request r ->
  step r i = Some o ->
  starting_request (outcome_state o).
Proof.
  intros Hstrict Hh [Hi _] Hr.
  assert (Hnone : fsm_state r <> starting ->
                  filter (fun c => negb (issued_by_tick c)) (pending r) = []).
  { intros Hs. unfold starting_request in Hr. rewrite Hr.
    destruct (fsm_state r); congruence. }
  destruct i as [| | |n now|n res]; simpl.
  - intros H; inversion H; subst. unfold start, isInState.
    destruct (fsm_state r) eqn:Hs; simpl; try exact Hr.
    apply gotoState_starting_request; auto.
    intros _. apply Hnone. congruence.
  - intros H; inversion H; subst. unfold stop, isInState.
    destruct (fsm_state r) eqn:Hs; simpl; try exact Hr;
      (apply gotoState_starting_request; auto;
       intros _; apply Hnone; congruence).
  - unfold isInState. destruct (fsm_state r) eqn:Hs; simpl;
      intros H; inversion H; subst.
    apply gotoState_starting_request; auto.
    intros _. apply Hnone. congruence.
  - destruct (nth_error (intervals r) n) as [c|] eqn:Hn; intros H;
      inversion H; subst.
    unfold on_tick. destruct (vmr_lastPoll r); [exact Hr|].
    unfold starting_request in *. simpl.
    rewrite filter_app, Hr. simpl.
    rewrite (Hi c (nth_error_In _ _ Hn)). simpl. apply app_nil_r.
  - destruct (nth_error (pending r) n) as [c|] eqn:Hn; intros H;
      inversion H; subst.
    pose proof (nth_error_In _ _ Hn) as Hin.
    destruct (issued_by_tick c) eqn:Hc.
    + assert (Hr' : forall r', pending r' = remove_nth n (pending r) ->
                               fsm_state r' = fsm_state r ->
                               fsm_handle r' = fsm_handle r ->
                               starting_request r').
      { intros r' Hp Hs Hh'. unfold starting_request.
        rewrite Hp, Hs, Hh'.
        rewrite (filter_remove_nth_false _ _ _ _ Hn); [exact Hr|].
        now rewrite Hc. }
      unfold on_fetched. unfold issued_by_tick in Hc.
      destruct (cl_origin c) eqn:Ho; [discriminate| |].
      * destruct res as [err|vms]; [now apply Hr'|].
        pose proof (diffAndEmit_frame
                      (set_discovered_backends (discovered vms)
                         (set_lastPoll None
                            (set_pending (remove_nth n (pending r)) r))))
          as (_ & _ & _ & _ & Hs & Hh' & _ & Hp).
        cbv zeta in *. destruct (diffAndEmit _) as [r' evs]. simpl in *.
        now apply Hr'.
      * destruct res as [err|vms]; [now apply Hr'|].
        apply gotoState_starting_request; auto.
        simpl. intros Hcur.
        destruct (Hh c (or_introl Hin)) as [_ Hst].
        specialize (Hst Hcur). rewrite Ho in Hst. simpl in Hst.
        rewrite (filter_remove_nth_false _ _ _ _ Hn).
        -- apply Hnone. congruence.
        -- unfold issued_by_tick. now rewrite Ho.
    + destruct (starting_request_current r c Hr Hin Hc) as [Hs ->].
      assert (Hempty : filter (fun c => negb (issued_by_tick c))
                         (remove_nth n (pending r)) = []).
      { pose proof (filter_remove_nth
                      (fun c => negb (issued_by_tick c)) _ _ _ Hn) as Hl.
        unfold starting_request in Hr. rewrite Hr, Hs in Hl. simpl in Hl.
        apply length_zero_iff_nil. lia. }
      unfold on_fetched. simpl. destruct res as [err|vms].
      * unfold isInState. simpl. rewrite Hs. simpl.
        exact (gotoState_current_starting_request failed
                 (set_pending (remove_nth n (pending r)) r) Hempty).
      * exact (gotoState_current_starting_request running
                 (set_discovered_backends (discovered vms)
                    (set_pending (remove_nth n (pending r)) r)) Hempty).
Qed.

Lemma reachable_starting_request (r : resolver) :
  stale_handle_throws = true -> reachable r -> starting_request r.
Proof.
  intros Hstrict [port H].
  assert (Hinv : handles_current r /\ poll_guarded r /\ starting_request r).
  { apply (steps_invariant
             (fun x => handles_current x /\ poll_guarded x
                       /\ starting_request x)) with (2 := H).
    - intros r0 i o (Hh & Hp & Hs) Hstep. split; [|split].
      + eapply step_handles; eauto.
      + eapply step_poll_guarded; eauto.
      + eapply step_starting_request; eauto.
    - split; [|split].
      + intros c [[]|[]].
      + split; simpl; [tauto | reflexivity].
      + reflexivity. }
  tauto.
Qed.

(** An answer to a request made under a handle the machine no longer
    has moves the machine nowhere. *)
Lemma stale_answer_stays (r : resolver) (n : nat) (res : fetch_result)
    (c : closure) (o : outcome) :
  stale_handle_throws = true ->
  starting_request r ->
  nth_error (pending r) n = Some c ->
  cl_handle c <> fsm_handle r ->
  step r (Fetched n res) = Some o ->
  fsm_state (outcome_state o) = fsm_state r
  /\ fsm_handle (outcome_state o) = fsm_handle r.
Proof.
  intros Hstrict Hr Hn Hne. simpl. rewrite Hn.
  intros H; inversion H; subst. clear H.
  pose proof (nth_error_In _ _ Hn) as Hin.
  destruct (issued_by_tick c) eqn:Hc.
  - unfold on_fetched. unfold issued_by_tick in Hc.
    destruct (cl_origin c) eqn:Ho; [discriminate| |].
    + destruct res as [err|vms]; [simpl; auto|].
      pose proof (diffAndEmit_frame
                    (set_discovered_backends (discovered vms)
                       (set_lastPoll None
                          (set_pending (remove_nth n (pending r)) r))))
        as (_ & _ & _ & _ & Hs & Hh' & _).
      cbv zeta in *. destruct (diffAndEmit _) as [r' evs]. simpl in *. auto.
    + destruct res as [err|vms]; [simpl; auto|].
      destruct (gotoState_fsm (cl_handle c) running
                  (set_discovered_backends (discovered vms)
                     (clearInterval (cl_handle c)
                        (set_lastPoll None
                           (set_pending (remove_nth n (pending r)) r))))
                  Hstrict)
        as [(Hh' & _)|[_ ->]]; [now contradiction Hne | simpl; auto].
  - destruct (starting_request_current r c Hr Hin Hc) as [_ ->].
    now contradiction Hne.
Qed.

(** X11: with an FSM base class that throws on a used handle, every
    turn of the event loop either leaves the machine in its state or
    moves it along one of the arrows stopped -> starting,
    starting -> running, starting -> failed, failed -> running,
    running -> stopping, failed -> stopping, stopping -> stopped; and
    an answer to a request made under a handle the machine no longer
    has, that is for a state the machine has left, changes neither the
    state nor the handle. *)
Theorem lifecycle_follows_the_arrows (r : resolver) (i : input)
    (o : outcome) :
  stale_handle_throws = true ->
  reachable r ->
  step r i = Some o ->
  allowed_transition (fsm_state r) (fsm_state (outcome_state o)) = true
  /\ (forall n res c,
        i = Fetched n res ->
        nth_error (pending r) n = Some c ->
        cl_handle c <> fsm_handle r ->
        fsm_state (outcome_state o) = fsm_state r
        /\ fsm_handle (outcome_state o) = fsm_handle r).
Proof.
  intros Hstrict Hr Hstep. split.
  - apply (step_allowed r i o); auto using reachable_handles.
  - intros n res c -> Hn Hne.
    apply (stale_answer_stays r n res c o); auto.
    now apply reachable_starting_request.
Qed.

Lemma enter_timers (s : fsm_state_name) (r : resolver) :
  intervals r = [] ->
  intervals (fst (enter s r)) = timers_of s (S (fsm_handle r)).
Proof.
  intros Hi. destruct s; unfold enter; try (simpl; now rewrite Hi).
  destruct (diffAndEmit_frame (set_fsm running (S (fsm_handle r)) r))
    as (_ & _ & _ & _ & _ & _ & Hi' & _).
  cbv zeta in *. destruct (diffAndEmit _) as [r' evs]. simpl in *.
  now rewrite Hi', Hi.
Qed.

Lemma clear_timers (s : fsm_state_name) (h cur : nat) :
  filter (fun c => negb (cl_handle c =? h)) (timers_of s cur)
  = if cur =? h then [] else timers_of s cur.
Proof.
  only_stated.
  destruct s; simpl; destruct (cur =? h); reflexivity.
Qed.

(** With handles checked, the timers are those of the current state. *)
Lemma step_timers (r : resolver) (i : input) (o : outcome) :
  stale_handle_throws = true ->
  handles_current r ->
  intervals r = timers_of (fsm_state r) (fsm_handle r) ->
  step r i = Some o ->
  intervals (outcome_state o)
  = timers_of (fsm_state (outcome_state o)) (fsm_handle (outcome_state o)).
Proof.
  intros Hstrict Hg Ht.
  assert (Hgo : forall s r0,
             intervals r0 = [] -> fsm_handle r0 = fsm_handle r ->
             intervals (outcome_state (gotoState (fsm_handle r) s r0))
             = timers_of
                 (fsm_state (outcome_state (gotoState (fsm_handle r) s r0)))
                 (fsm_handle
                    (outcome_state (gotoState (fsm_handle r) s r0)))).
  { intros s r0 Hi Hh. unfold gotoState. rewrite Hh, Nat.eqb_refl. simpl.
    pose proof (enter_timers s r0 Hi) as He.
    destruct (enter_fsm s r0) as (Hs' & Hh' & _).
    destruct (enter s r0). simpl in *. now rewrite Hs', Hh'. }
  destruct i as [| | |n now|n res]; simpl.
  - intros H; inversion H; subst. unfold start, isInState.
    destruct (fsm_state r) eqn:Hs; simpl; try (now rewrite Hs).
    apply Hgo; auto.
  - intros H; inversion H; subst. unfold stop, isInState.
    destruct (fsm_state r) eqn:Hs; simpl; try (now rewrite Hs);
      apply Hgo; auto; simpl;
      now rewrite Ht, clear_timers, Nat.eqb_refl.
  - unfold isInState. destruct (fsm_state r) eqn:Hs; simpl;
      intros H; inversion H; subst.
    apply Hgo; auto.
  - destruct (nth_error (intervals r) n) as [c|]; intros H;
      inversion H; subst.
    unfold on_tick. destruct (vmr_lastPoll r); simpl; exact Ht.
  - destruct (nth_error (pending r) n) as [c|] eqn:Hn; intros H;
      inversion H; subst.
    destruct (Hg c (or_introl (nth_error_In _ _ Hn))) as [_ Hcur].
    unfold on_fetched. destruct (cl_origin c) eqn:Ho, res as [err|vms].
    + unfold isInState. simpl.
      destruct (fsm_state r) eqn:Hs; simpl; try (now rewrite Hs).
      apply Hgo; auto.
    + destruct (Nat.eq_dec (cl_handle c) (fsm_handle r)) as [E|E].
      * rewrite E. apply Hgo; auto. simpl.
        now rewrite Ht, <- (Hcur E).
      * destruct (gotoState_fsm (cl_handle c) running
                    (set_discovered_backends (discovered vms)
                       (set_pending (remove_nth n (pending r)) r))
                    Hstrict) as [(Hh & _)|[_ ->]];
          [simpl in Hh; contradiction | exact Ht].
    + exact Ht.
    + pose proof (diffAndEmit_frame
                    (set_discovered_backends (discovered vms)
                       (set_lastPoll None
                          (set_pending (remove_nth n (pending r)) r))))
        as (_ & _ & _ & _ & Hs & Hh & Hi & _).
      cbv zeta in *. destruct (diffAndEmit _) as [r' evs]. simpl in *.
      now rewrite Hi, Hs, Hh.
    + exact Ht.
    + destruct (Nat.eq_dec (cl_handle c) (fsm_handle r)) as [E|E].
      * rewrite E. apply Hgo; auto. simpl.
        now rewrite Ht, clear_timers, Nat.eqb_refl.
      * destruct (gotoState_fsm (cl_handle c) running
                    (set_discovered_backends (discovered vms)
                       (clearInterval (cl_handle c)
                          (set_lastPoll None
                             (set_pending (remove_nth n (pending r)) r))))
                    Hstrict) as [(Hh & _)|[_ ->]];
          [simpl in Hh; contradiction|].
        simpl. rewrite Ht, clear_timers.
        destruct (Nat.eqb_spec (fsm_handle r) (cl_handle c)); congruence.
Qed.

Lemma reachable_timers (r : resolver) :
  stale_handle_throws = true ->
  reachable r ->
  intervals r = timers_of (fsm_state r) (fsm_handle r).
Proof.
  intros Hstrict [port H].
  assert (Hinv : handles_current r
                 /\ intervals r = timers_of (fsm_state r) (fsm_handle r)).
  { apply (steps_invariant
             (fun x => handles_current x
                       /\ intervals x
                          = timers_of (fsm_state x) (fsm_handle x)))
      with (2 := H).
    - intros x i o [Hg Ht] Hs. split.
      + eapply step_handles; eauto.
      + eapply step_timers; eauto.
    - split; [intros c [[]|[]] | reflexivity]. }
  tauto.
Qed.

(** X12: with an FSM base class that throws on a used handle, the live
    [setInterval] timers are exactly those of the current state: one,
    made by the current state function, in 'running' and in 'failed';
    none in 'stopped', 'starting' and 'stopping'. *)
Theorem timers_match_state (r : resolver) :
  stale_handle_throws = true ->
  reachable r ->
  intervals r = timers_of (fsm_state r) (fsm_handle r)
  /\ List.length (intervals r) <= 1.
Proof.
  intros Hstrict Hr. pose proof (reachable_timers r Hstrict Hr) as H.
  split; [exact H|]. rewrite H. destruct (fsm_state r); simpl; lia.
Qed.

(** ** The advertised backends *)

Lemma evolves_ported (r r' : resolver) :
  evolves r r' ->
  (forall k b, Obj.get k (vmr_backends r) = Some b ->
               be_port b = vmr_backend_port r) ->
  forall k b, Obj.get k (vmr_backends r') = Some b ->
              be_port b = vmr_backend_port r'.
Proof.
  unfold evolves, evolves_core, core.
  intros (-> & _ & [[-> _]|[[-> _]|(d & -> & _)]]) H k b G; eauto.
  - discriminate.
  - destruct (install_get _ _ _ _ _ G) as [(e & _ & ->)|];
      [reflexivity | discriminate].
Qed.

Lemma reachable_ported (r : resolver) :
  reachable r ->
  forall k b, Obj.get k (vmr_backends r) = Some b ->
              be_port b = vmr_backend_port r.
Proof.
  intros [port Hs].
  apply (steps_invariant
           (fun x => forall k b, Obj.get k (vmr_backends x) = Some b ->
                                 be_port b = vmr_backend_port x))
    with (2 := Hs).
  - intros x i o Hx Hstep.
    exact (evolves_ported x _ (step_evolves _ _ _ Hstep) Hx).
  - intros k b G. discriminate.
Qed.

(** X13: in every reachable state the keys of [vmr_backends] are
    pairwise distinct strings of twelve characters, and the backend
    under a key carries that key and the configured port. *)
Theorem advertised_backends_well_formed (r : resolver) :
  reachable r ->
  NoDup (Obj.keys (vmr_backends r))
  /\ (forall k b,
        Obj.get k (vmr_backends r) = Some b ->
        be_key b = k
        /\ be_port b = vmr_backend_port r
        /\ String.length k = 12).
Proof.
  intros Hr. split; [now apply reachable_NoDup|]. intros k b G.
  destruct (reachable_keyed _ Hr _ _ G) as (Hk & j & _ & Ej).
  split; [assumption|]. split.
  - eapply reachable_ported; eauto.
  - rewrite Ej. apply fresh_key_length.
Qed.

(** ** Polling goes on *)

(** X14: when the answer to a request made by a tick arrives, be it an
    error or a result, for the current state or for one the machine has
    left, [vmr_lastPoll] is reset; so the next tick of any live timer
    makes a request. *)
Theorem poll_answer_rearms_the_timer (r : resolver) (n : nat) (c : closure)
    (res : fetch_result) (o : outcome) :
  nth_error (pending r) n = Some c ->
  issued_by_tick c = true ->
  step r (Fetched n res) = Some o ->
  vmr_lastPoll (outcome_state o) = None
  /\ (forall m c' now,
        nth_error (intervals (outcome_state o)) m = Some c' ->
        step (outcome_state o) (Tick m now)
        = Some (Returned
                  (getBackends c'
                     (set_lastPoll (Some now) (outcome_state o))) [])).
Proof.
  intros Hn Ht Hstep.
  assert (Hl : vmr_lastPoll (outcome_state o) = None).
  { simpl in Hstep. rewrite Hn in Hstep. inversion Hstep; subst. clear Hstep.
    assert (Hgo : forall h s r0, vmr_lastPoll r0 = None ->
                    vmr_lastPoll (outcome_state (gotoState h s r0)) = None).
    { intros h s r0 H0. unfold gotoState. destruct (_ || _); [|exact H0].
      destruct (enter_fsm s r0) as (_ & _ & Hl). destruct (enter s r0).
      simpl in *. congruence. }
    unfold on_fetched. unfold issued_by_tick in Ht.
    destruct (cl_origin c), res as [err|vms]; try discriminate;
      try reflexivity.
    - destruct (diffAndEmit_frame
                  (set_discovered_backends (discovered vms)
                     (set_lastPoll None
                        (set_pending (remove_nth n (pending r)) r))))
        as (_ & _ & Hl & _).
      cbv zeta in *. destruct (diffAndEmit _). exact Hl.
    - now apply Hgo. }
  split; [assumption|]. intros m c' now Hm. simpl.
  rewrite Hm. unfold on_tick. now rewrite Hl.
Qed.

(** ** What changes the set *)

(** X15: only [stop()] and a successful answer can change
    [vmr_backends] or emit an event: a [start()], an immediate, a tick
    or a failed request emits nothing, leaves the set alone and draws
    no key. *)
Theorem quiet_inputs_change_nothing (r : resolver) (i : input)
    (o : outcome) :
  quiet_input i = true ->
  step r i = Some o ->
  outcome_events o = []
  /\ vmr_backends (outcome_state o) = vmr_backends r
  /\ rng (outcome_state o) = rng r.
Proof.
  intros Hq Hstep.
  assert (Hgo : forall h s r0,
             s = starting \/ s = stopped \/ s = failed ->
             outcome_events (gotoState h s r0) = []
             /\ vmr_backends (outcome_state (gotoState h s r0))
                = vmr_backends r0
             /\ rng (outcome_state (gotoState h s r0)) = rng r0).
  { intros h s r0 Hs. unfold gotoState.
    destruct (_ || _); [|simpl; auto].
    destruct Hs as [-> |[-> | ->]]; simpl; auto. }
  destruct i as [| | |n now|n [err|vms]]; try discriminate; simpl in Hstep.
  - inversion Hstep; subst. unfold start.
    destruct (isInState stopped r); [apply Hgo; auto | simpl; auto].
  - destruct (isInState stopping r); inversion Hstep; subst.
    apply Hgo; auto.
  - destruct (nth_error (intervals r) n); inversion Hstep; subst.
    unfold on_tick. destruct (vmr_lastPoll r); simpl; auto.
  - destruct (nth_error (pending r) n) as [c|]; inversion Hstep; subst.
    unfold on_fetched. destruct (cl_origin c); try (simpl; auto).
    destruct (isInState starting _); [|simpl; auto].
    apply (Hgo _ failed (set_pending (remove_nth n (pending r)) r)). auto.
Qed.

(** ** Recovery *)

(** X16: in 'failed' with nothing advertised, a successful answer to
    the request of the current timer clears that timer, stores the
    discovery result, enters 'running', emits one [added] event per
    discovered endpoint, and leaves the poll guard reset. *)
Theorem failed_recovers_on_success (r : resolver) (n : nat) (c : closure)
    (vms : list vm) :
  fsm_state r = failed ->
  nth_error (pending r) n = Some c ->
  cl_origin c = FromFailed ->
  cl_handle c = fsm_handle r ->
  vmr_backends r = [] ->
  exists r',
    step r (Fetched n (FetchOk vms))
    = Some (Returned r'
              (map (fun j => EvAdded (fresh_key j)
                               (Obj.get (fresh_key j) (vmr_backends r')))
                 (seq (rng r) (List.length (discovered vms)))))
    /\ fsm_state r' = running
    /\ vmr_discovered_backends r' = discovered vms
    /\ vmr_lastPoll r' = None
    /\ pending r' = remove_nth n (pending r)
    /\ intervals r'
       = filter (fun c' => negb (cl_handle c' =? fsm_handle r)) (intervals r)
         ++ [{| cl_origin := FromRunning; cl_handle := S (fsm_handle r) |}].
Proof.
  intros Hs Hn Ho Hh Hb.
  pose (r0 := set_fsm running (S (fsm_handle r))
                (set_discovered_backends (discovered vms)
                   (clearInterval (fsm_handle r)
                      (set_lastPoll None
                         (set_pending (remove_nth n (pending r)) r))))).
  pose (r' := set_intervals
                (intervals (fst (diffAndEmit r0))
                 ++ [{| cl_origin := FromRunning;
                        cl_handle := S (fsm_handle r) |}])
                (fst (diffAndEmit r0))).
  assert (Hstep : step r (Fetched n (FetchOk vms))
                  = Some (Returned r' (snd (diffAndEmit r0)))).
  { unfold step. rewrite Hn. unfold on_fetched. rewrite Ho. cbv zeta.
    unfold gotoState. rewrite Hh.
    change (fsm_handle
              (set_discovered_backends (discovered vms)
                 (clearInterval (fsm_handle r)
                    (set_lastPoll None
                       (set_pending (remove_nth n (pending r)) r)))))
      with (fsm_handle r).
    rewrite Nat.eqb_refl. reflexivity. }
  destruct (diffAndEmit_from_empty r0 Hb) as [He _].
  destruct (diffAndEmit_frame r0) as (_ & Hd & Hl & _ & Hst & _ & Hi & Hp).
  cbv zeta in *.
  exists r'. split; [|split; [|split; [|split; [|split]]]].
  - rewrite Hstep, He. reflexivity.
  - exact Hst.
  - exact Hd.
  - exact Hl.
  - exact Hp.
  - transitivity (intervals (fst (diffAndEmit r0))
                  ++ [{| cl_origin := FromRunning;
                         cl_handle := S (fsm_handle r) |}]);
      [reflexivity|].
    rewrite Hi. reflexivity.
Qed.

(** ** Stopping, starting, and misuse *)

(** X18: with an FSM base class that throws on a used handle, [stop()]
    in 'running' or 'failed' cancels the timer, retracts every key and
    the machine gets to 'stopped' with no timer and an empty set; the
    requests in flight and [vmr_lastPoll] are left as they were. *)
Theorem stop_cancels_the_timer (r : resolver) :
  stale_handle_throws = true ->
  reachable r ->
  fsm_state r = running \/ fsm_state r = failed ->
  exists r1 r2,
    step r Stop
    = Some (Returned r1 (map EvRemoved (Obj.keys (vmr_backends r))))
    /\ intervals r1 = []
    /\ step r1 Immediate = Some (Returned r2 [])
    /\ fsm_state r2 = stopped
    /\ intervals r2 = []
    /\ vmr_backends r2 = []
    /\ pending r2 = pending r
    /\ vmr_lastPoll r2 = vmr_lastPoll r.
Proof.
  intros Hstrict Hr Hs.
  pose proof (reachable_keyed _ Hr) as Hk.
  pose proof (reachable_timers r Hstrict Hr) as Ht.
  pose (r1 := fst (state_stopping
                     (set_fsm stopping (S (fsm_handle r))
                        (clearInterval (fsm_handle r) r)))).
  pose (r2 := set_fsm stopped (S (fsm_handle r1)) r1).
  pose proof (state_stopping_events
                (set_fsm stopping (S (fsm_handle r))
                   (clearInterval (fsm_handle r) r)) Hk) as Hev.
  simpl in Hev.
  assert (Hin : isInState running r || isInState failed r = true).
  { unfold isInState. destruct Hs as [-> | ->]; reflexivity. }
  assert (Hi : intervals r1 = []).
  { simpl. rewrite Ht, clear_timers, Nat.eqb_refl. reflexivity. }
  exists r1, r2. repeat split; auto.
  - simpl. unfold stop. rewrite Hin.
    unfold gotoState. simpl. rewrite Nat.eqb_refl. simpl.
    rewrite <- Hev. reflexivity.
  - simpl. unfold gotoState. simpl. rewrite Nat.eqb_refl. reflexivity.
Qed.

(** X19: [start()] goes through exactly in 'stopped', where it makes
    one request and emits nothing, and [stop()] exactly in 'running'
    and 'failed'; in any other state the assertion fails and the
    resolver is left untouched. *)
Theorem start_and_stop_assert_the_state (r : resolver) :
  (fsm_state r = stopped ->
   exists r',
     step r Start = Some (Returned r' [])
     /\ fsm_state r' = starting
     /\ pending r'
        = pending r
          ++ [{| cl_origin := FromStarting;
                 cl_handle := S (fsm_handle r) |}]
     /\ intervals r' = intervals r
     /\ vmr_backends r' = vmr_backends r)
  /\ (fsm_state r <> stopped -> step r Start = Some (Threw r []))
  /\ (fsm_state r <> running -> fsm_state r <> failed ->
      step r Stop = Some (Threw r [])).
Proof.
  split; [|split].
  - intros Hs. exists (fst (enter starting r)).
    split; [|split; [|split; [|split]]]; try reflexivity.
    simpl. unfold start, isInState. rewrite Hs. simpl.
    unfold gotoState. rewrite Nat.eqb_refl. reflexivity.
  - intros Hs. simpl. unfold start, isInState.
    destruct (fsm_state r); try reflexivity. now contradiction Hs.
  - intros Hs Hf. simpl. unfold stop, isInState.
    destruct (fsm_state r); try reflexivity; congruence.
Qed.

(** ** The search of [diffAndEmit] *)

Lemma get_in_NoDup {V} (o : obj V) (k : string) (v : V) :
  NoDup (Obj.keys o) -> In (k, v) o -> Obj.get k o = Some v.
Proof.
  only_stated. induction o as [|[k0 v0] o IH]; simpl; [tauto|].
  intros Hnd [H|H].
  - inversion H; subst. now rewrite String.eqb_refl.
  - inversion Hnd as [|? ? Hnotin Hnd']; subst.
    destruct (String.eqb_spec k k0) as [->|Hne]; [|now apply IH].
    exfalso. apply Hnotin. change (In k0 (map fst o)).
    apply in_map_iff. now exists (k0, v).
Qed.

(** X20: the inner loop of [diffAndEmit] does not stop at the first
    match: when several backends of the current set have the
    endpoint's name and address, the key it settles on is the last of
    them in the order of [Object.keys]. *)
Theorem find_key_takes_the_last_match (l1 l2 : obj backend) (k : string)
    (b : backend) (e : endpoint) :
  NoDup (Obj.keys (l1 ++ (k, b) :: l2)) ->
  endpoint_of b = e ->
  (forall k' b', In (k', b') l2 -> endpoint_of b' <> e) ->
  find_key (l1 ++ (k, b) :: l2) e = Some k.
Proof.
  only_stated. intros Hnd Hb Hl2. unfold find_key.
  set (old := l1 ++ (k, b) :: l2) in *.
  assert (Hget : forall k' b', In (k', b') old -> Obj.get k' old = Some b')
    by (intros; now apply get_in_NoDup).
  unfold Obj.keys. subst old. rewrite map_app, fold_left_app. simpl.
  rewrite (Hget k b) by (apply in_or_app; right; now left).
  assert (Hm : same_endpoint b e = true) by now apply same_endpoint_iff.
  rewrite Hm.
  assert (Htail : forall l acc,
             incl l l2 ->
             fold_left
               (fun found key =>
                  match Obj.get key (l1 ++ (k, b) :: l2) with
                  | Some old_backend =>
                      if same_endpoint old_backend e then Some key
                      else found
                  | None => found
                  end) (map fst l) acc = acc).
  { induction l as [|[k' b'] l IH]; intros acc Hincl; simpl; auto.
    assert (Hin : In (k', b') l2) by (apply Hincl; now left).
    rewrite (Hget k' b') by (apply in_or_app; right; now right).
    destruct (same_endpoint b' e) eqn:M.
    - apply same_endpoint_iff in M. exfalso. eapply Hl2; eauto.
    - apply IH. intros x Hx. apply Hincl. now right. }
  apply Htail, incl_refl.
Qed.

(** ** The keys *)

(** X17: a key is twelve characters long, and two keys are equal
    exactly when the nine bytes [randomBytes] returned for them are:
    the base64 text loses nothing of the draw. *)
Theorem key_encodes_its_bytes (i j : nat) :
  String.length (fresh_key i) = 12
  /\ (fresh_key i = fresh_key j <-> randomBytes 9 i = randomBytes 9 j).
Proof.
  split; [apply fresh_key_length|]. split.
  - apply fresh_key_inj.
  - unfold fresh_key. now intros ->.
Qed.

(** ** Endpoints reported more than once *)

(** The key drawn for the [i]-th endpoint that is not found goes with
    that endpoint. *)
Lemma assign_fresh_nth (old : obj backend) (c : nat) (d : list endpoint)
    (i : nat) (e : endpoint) :
  nth_error (unknown old d) i = Some e ->
  In (fresh_key (c + i), e) (assign old c d).
Proof.
  revert c i. unfold unknown.
  induction d as [|e0 d IH]; intros c i; simpl.
  - destruct i; discriminate.
  - destruct (find_key old e0) as [k0|]; simpl; intros Hi.
    + right. now apply IH.
    + destruct i as [|i]; simpl in Hi.
      * inversion Hi; subst. left. now rewrite Nat.add_0_r.
      * right. rewrite Nat.add_succ_r. now apply (IH (S c) i).
Qed.

(** When the keys drawn are pairwise distinct and not keys of the old
    set, a key is assigned to one endpoint only. *)
Lemma assign_key_endpoint (old : obj backend) (c : nat)
    (d : list endpoint) :
  NoDup (map fresh_key (seq c (List.length (unknown old d)))) ->
  (forall k, In k (map fresh_key (seq c (List.length (unknown old d)))) ->
             Obj.get k old = None) ->
  forall k e e',
    In (k, e) (assign old c d) -> In (k, e') (assign old c d) -> e = e'.
Proof.
  intros Hk Hnew k e e' A A'.
  assert (Hfresh : forall e0 i,
             nth_error (unknown old d) i = Some e0 ->
             i < List.length (unknown old d)
             /\ nth_error (map fresh_key
                             (seq c (List.length (unknown old d)))) i
                = Some (fresh_key (c + i))).
  { intros e0 i Hi.
    assert (i < List.length (unknown old d))
      by (apply nth_error_Some; congruence).
    split; auto. now apply nth_error_fresh_keys. }
  destruct (assign_in _ _ _ _ _ A) as [_ [F|[F _]]];
    destruct (assign_in _ _ _ _ _ A') as [_ [F'|[F' _]]].
  - apply find_key_some in F, F'.
    destruct F as (ob & G & <-), F' as (ob' & G' & <-). congruence.
  - destruct (assign_minted _ _ _ _ _ A' F') as (i & Hi & ->).
    destruct (Hfresh _ _ Hi) as [_ Hn]. apply nth_error_In in Hn.
    apply Hnew in Hn. destruct (find_key_some _ _ _ F) as (ob & G & _).
    congruence.
  - destruct (assign_minted _ _ _ _ _ A F) as (i & Hi & ->).
    destruct (Hfresh _ _ Hi) as [_ Hn]. apply nth_error_In in Hn.
    apply Hnew in Hn. destruct (find_key_some _ _ _ F') as (ob & G & _).
    congruence.
  - destruct (assign_minted _ _ _ _ _ A F) as (i & Hi & Ek).
    destruct (assign_minted _ _ _ _ _ A' F') as (i' & Hi' & Ek').
    destruct (Hfresh _ _ Hi) as [Hlt Hn].
    destruct (Hfresh _ _ Hi') as [Hlt' Hn'].
    assert (Ei : nth_error
                   (map fresh_key (seq c (List.length (unknown old d)))) i
                 = nth_error
                     (map fresh_key (seq c (List.length (unknown old d))))
                     i') by congruence.
    rewrite NoDup_nth_error in Hk. apply Hk in Ei.
    + subst i'. congruence.
    + now rewrite length_map, length_seq.
Qed.

(** Under the same conditions every assignment survives the loop: the
    new set holds each discovered endpoint under the key assigned to
    it. *)
Lemma assign_stored (port : Z) (old : obj backend) (c : nat)
    (d : list endpoint) :
  NoDup (map fresh_key (seq c (List.length (unknown old d)))) ->
  (forall k, In k (map fresh_key (seq c (List.length (unknown old d)))) ->
             Obj.get k old = None) ->
  forall k e,
    In (k, e) (assign old c d) ->
    Obj.get k (install port (assign old c d) []) = Some (mk_backend port e k).
Proof.
  intros Hk Hnew k e A.
  assert (Hin : In k (Obj.keys (install port (assign old c d) []))).
  { apply install_keys. left. apply in_map_iff. now exists (k, e). }
  apply in_keys_get in Hin. destruct Hin as [b G].
  destruct (install_get _ _ _ _ _ G) as [(e0 & A0 & ->)|]; [|discriminate].
  now rewrite (assign_key_endpoint old c d Hk Hnew k e0 e A0 A) in G.
Qed.

(** C4, as the code has it: the keys of the set [diffAndEmit] produces
    are unique, and two of its backends with the same name and address
    sit under the same key whenever the search finds that pair in the
    previous set or the pair is reported only once; a backend whose
    pair the search finds in the previous set sits under the key found
    there.  A pair that is not found in the previous set gets a key per
    occurrence: when the keys drawn in the run are pairwise distinct
    and not keys of the previous set, the [i]-th endpoint that is not
    found is stored under the key of the [i]-th draw, and two
    occurrences of one missing pair are stored under two different
    keys. *)
Theorem diffAndEmit_one_key_per_known_pair (r : resolver) :
  let r' := fst (diffAndEmit r) in
  let missing := unknown (vmr_backends r) (vmr_discovered_backends r) in
  NoDup (Obj.keys (vmr_backends r'))
  /\ (forall k1 k2 b1 b2,
        Obj.get k1 (vmr_backends r') = Some b1 ->
        Obj.get k2 (vmr_backends r') = Some b2 ->
        endpoint_of b1 = endpoint_of b2 ->
        find_key (vmr_backends r) (endpoint_of b1) <> None
        \/ occurrences (endpoint_of b1) (vmr_discovered_backends r) <= 1 ->
        k1 = k2)
  /\ (forall k b k0,
        Obj.get k (vmr_backends r') = Some b ->
        find_key (vmr_backends r) (endpoint_of b) = Some k0 ->
        k = k0)
  /\ (NoDup (vmr_lastAdded r') ->
      (forall k, In k (vmr_lastAdded r') ->
                 Obj.get k (vmr_backends r) = None) ->
      forall e i,
        nth_error missing i = Some e ->
        Obj.get (fresh_key (rng r + i)) (vmr_backends r')
        = Some (mk_backend (vmr_backend_port r) e (fresh_key (rng r + i)))
        /\ (forall i',
              nth_error missing i' = Some e -> i' <> i ->
              fresh_key (rng r + i') <> fresh_key (rng r + i)
              /\ Obj.get (fresh_key (rng r + i')) (vmr_backends r')
                 = Some (mk_backend (vmr_backend_port r) e
                           (fresh_key (rng r + i'))))).
Proof.
  cbv zeta. split; [apply diffAndEmit_NoDup|]. split; [|split].
  - intros k1 k2 b1 b2 G1 G2 He Hor.
    apply diffAndEmit_get in G1. destruct G1 as (e1 & A1 & ->).
    apply diffAndEmit_get in G2. destruct G2 as (e2 & A2 & ->).
    rewrite !endpoint_of_mk_backend in *. subst e2.
    destruct Hor as [Hf|Hocc].
    + destruct (assign_in _ _ _ _ _ A1) as [_ [F1|[F1 _]]]; [|congruence].
      destruct (assign_in _ _ _ _ _ A2) as [_ [F2|[F2 _]]]; congruence.
    + eapply assign_once; eauto.
  - intros k b k0 G F.
    apply diffAndEmit_get in G. destruct G as (e1 & A1 & ->).
    rewrite endpoint_of_mk_backend in F.
    destruct (assign_in _ _ _ _ _ A1) as [_ [F1|[F1 _]]]; congruence.
  - intros Hk Hnew. rewrite diffAndEmit_lastAdded in Hk, Hnew.
    assert (Hstored : forall e i,
               nth_error
                 (unknown (vmr_backends r) (vmr_discovered_backends r)) i
               = Some e ->
               Obj.get (fresh_key (rng r + i))
                 (vmr_backends (fst (diffAndEmit r)))
               = Some (mk_backend (vmr_backend_port r) e
                         (fresh_key (rng r + i)))).
    { intros e i Hi. rewrite diffAndEmit_backends.
      apply assign_stored; auto. now apply assign_fresh_nth. }
    intros e i Hi. split; [now apply Hstored|].
    intros i' Hi' Hne. split; [|now apply Hstored].
    intros E. apply Hne.
    assert (Hlt : forall j e0,
               nth_error
                 (unknown (vmr_backends r) (vmr_discovered_backends r)) j
               = Some e0 ->
               j < List.length
                     (unknown (vmr_backends r) (vmr_discovered_backends r)))
      by (intros j e0 Hj; apply nth_error_Some; congruence).
    rewrite NoDup_nth_error in Hk. apply Hk.
    + rewrite length_map, length_seq. eauto.
    + rewrite !nth_error_fresh_keys by eauto. now rewrite E.
Qed.

(** *** The order of the keys *)

Lemma set_keys_old {V} (k : string) (v : V) (o : obj V) :
  In k (Obj.keys o) -> Obj.keys (Obj.set k v o) = Obj.keys o.
Proof.
  only_stated. induction o as [|[k0 v0] o IH]; simpl; [tauto|].
  intros Hin. destruct (String.eqb_spec k k0) as [->|Hne]; simpl; auto.
  f_equal. apply IH. destruct Hin; congruence.
Qed.

Lemma set_keys_new {V} (k : string) (v : V) (o : obj V) :
  ~ In k (Obj.keys o) -> Obj.keys (Obj.set k v o) = Obj.keys o ++ [k].
Proof.
  only_stated. induction o as [|[k0 v0] o IH]; simpl; auto.
  intros Hnin. destruct (String.eqb_spec k k0) as [->|Hne]; simpl.
  - exfalso. auto.
  - f_equal. apply IH. auto.
Qed.

Lemma set_precedes (k k' x : string) (v : backend) (o : obj backend) :
  precedes k k' (Obj.keys o) -> precedes k k' (Obj.keys (Obj.set x v o)).
Proof.
  only_stated. intros (l1 & l2 & l3 & E).
  destruct (in_dec string_dec x (Obj.keys o)) as [Hin|Hnin].
  - rewrite set_keys_old by assumption. now exists l1, l2, l3.
  - rewrite set_keys_new by assumption. exists l1, l2, (l3 ++ [x]).
    rewrite E. repeat (rewrite <- app_assoc; simpl). reflexivity.
Qed.

Lemma set_precedes_new (k k' : string) (v : backend) (o : obj backend) :
  In k (Obj.keys o) -> ~ In k' (Obj.keys o) ->
  precedes k k' (Obj.keys (Obj.set k' v o)).
Proof.
  only_stated. intros Hin Hnin. rewrite set_keys_new by assumption.
  apply in_split in Hin. destruct Hin as (l1 & l2 & E).
  exists l1, l2, []. rewrite E, <- app_assoc. reflexivity.
Qed.

Lemma install_precedes (port : Z) (a : list (string * endpoint))
    (nb : obj backend) (k k' : string) :
  precedes k k' (Obj.keys nb) ->
  precedes k k' (Obj.keys (install port a nb)).
Proof.
  only_stated.
  revert nb. induction a as [|[x e] a IH]; intros nb H; simpl; auto.
  apply IH. now apply set_precedes.
Qed.

(** A key that is in the set when a key that is not is assigned comes
    first. *)
Lemma install_precedes_new (port : Z) (a : list (string * endpoint))
    (nb : obj backend) (k k' : string) :
  In k (Obj.keys nb) -> ~ In k' (Obj.keys nb) -> In k' (map fst a) ->
  precedes k k' (Obj.keys (install port a nb)).
Proof.
  only_stated.
  revert nb. induction a as [|[x e] a IH]; intros nb Hk Hk' Hin;
    simpl in Hin; [tauto|].
  change (install port ((x, e) :: a) nb)
    with (install port a (Obj.set x (mk_backend port e x) nb)).
  destruct (string_dec x k') as [->|Hne].
  - now apply install_precedes, set_precedes_new.
  - apply IH.
    + apply in_keys_set. auto.
    + rewrite in_keys_set. intros [E|H]; [congruence | contradiction].
    + destruct Hin; [contradiction | assumption].
Qed.

(** When the keys drawn are pairwise distinct and new, they enter the
    set in the order of the draws. *)
Lemma assign_precedes (port : Z) (old : obj backend) (d : list endpoint) :
  forall (c : nat) (nb : obj backend) (i i' : nat),
    NoDup (map fresh_key (seq c (List.length (unknown old d)))) ->
    (forall k, In k (map fresh_key (seq c (List.length (unknown old d)))) ->
               Obj.get k old = None) ->
    (forall k, In k (map fresh_key (seq c (List.length (unknown old d)))) ->
               ~ In k (Obj.keys nb)) ->
    i < i' -> i' < List.length (unknown old d) ->
    precedes (fresh_key (c + i)) (fresh_key (c + i'))
      (Obj.keys (install port (assign old c d) nb)).
Proof.
  induction d as [|e d IH]; intros c nb i i' Hnd Hold Hnb Hlt Hlen;
    [simpl in Hlen; lia|].
  unfold unknown in *. simpl in *.
  destruct (find_key old e) as [key|] eqn:F; simpl in *.
  - change (install port ((key, e) :: assign old c d) nb)
      with (install port (assign old c d)
              (Obj.set key (mk_backend port e key) nb)).
    apply IH; auto.
    intros k Hk. rewrite in_keys_set. intros [->|H].
    + destruct (find_key_some _ _ _ F) as (ob & G & _).
      rewrite (Hold _ Hk) in G. discriminate.
    + exact (Hnb _ Hk H).
  - change (install port ((fresh_key c, e) :: assign old (S c) d) nb)
      with (install port (assign old (S c) d)
              (Obj.set (fresh_key c) (mk_backend port e (fresh_key c)) nb)).
    inversion Hnd as [|? ? Hfirst Hrest]; subst.
    assert (Hnb' : forall k,
               In k (map fresh_key
                       (seq (S c)
                          (List.length
                             (filter
                                (fun e => is_undefined (find_key old e))
                                d)))) ->
               ~ In k (Obj.keys
                         (Obj.set (fresh_key c)
                            (mk_backend port e (fresh_key c)) nb))).
    { intros k Hk. rewrite in_keys_set. intros [->|H].
      - contradiction.
      - exact (Hnb k (or_intror Hk) H). }
    destruct i' as [|j']; [lia|]. destruct i as [|j].
    + rewrite Nat.add_0_r.
      assert (Hin : In (fresh_key (c + S j'))
                      (map fresh_key
                         (seq (S c)
                            (List.length
                               (filter
                                  (fun e => is_undefined (find_key old e))
                                  d))))).
      { apply in_map. apply in_seq. lia. }
      apply install_precedes_new.
      * apply in_keys_set. auto.
      * now apply Hnb'.
      * destruct (nth_error
                    (filter (fun e => is_undefined (find_key old e)) d) j')
          as [e'|] eqn:Hj.
        -- apply (assign_fresh_nth old (S c)) in Hj.
           replace (c + S j') with (S c + j') by lia.
           apply in_map_iff. now exists (fresh_key (S c + j'), e').
        -- apply nth_error_None in Hj. lia.
    + replace (c + S j) with (S c + j) by lia.
      replace (c + S j') with (S c + j') by lia.
      apply IH; auto; lia.
Qed.

Lemma find_key_fold_in (old : obj backend) (e : endpoint)
    (ks : list string) (acc : option string) (k : string) :
  fold_left
    (fun found key =>
       match Obj.get key old with
       | Some old_backend =>
           if same_endpoint old_backend e then Some key else found
       | None => found
       end) ks acc = Some k ->
  acc = Some k \/ In k ks.
Proof.
  only_stated.
  revert acc. induction ks as [|k0 ks IH]; simpl; intros acc H; auto.
  apply IH in H. destruct H as [H|H]; auto.
  destruct (Obj.get k0 old) as [ob|]; auto.
  destruct (same_endpoint ob e); auto.
  inversion H; subst. auto.
Qed.

(** The search does not end on a key when a later key matches. *)
Lemma find_key_not_earlier (o : obj backend) (e : endpoint)
    (k k' : string) (b' : backend) :
  NoDup (Obj.keys o) ->
  precedes k k' (Obj.keys o) ->
  Obj.get k' o = Some b' -> endpoint_of b' = e ->
  find_key o e <> Some k.
Proof.
  only_stated. intros Hnd (l1 & l2 & l3 & E) G M. unfold find_key.
  rewrite E in *. rewrite fold_left_app. simpl. rewrite fold_left_app.
  simpl. rewrite G. apply same_endpoint_iff in M. rewrite M.
  intros H. apply find_key_fold_in in H.
  apply NoDup_remove_2 in Hnd. apply Hnd.
  apply in_or_app. right. apply in_or_app. right.
  destruct H as [H|H]; [inversion H; now left | now right].
Qed.

(** After a run with keys pairwise distinct and not in use, the search
    finds every discovered endpoint in the new set. *)
Lemma second_run_finds_all (r : resolver) (e : endpoint) :
  NoDup (vmr_lastAdded (fst (diffAndEmit r))) ->
  (forall k, In k (vmr_lastAdded (fst (diffAndEmit r))) ->
             Obj.get k (vmr_backends r) = None) ->
  In e (vmr_discovered_backends r) ->
  find_key (vmr_backends (fst (diffAndEmit r))) e <> None.
Proof.
  intros Hk Hnew Hin. rewrite diffAndEmit_lastAdded in Hk, Hnew.
  destruct (in_assign (vmr_backends r) (rng r) _ _ Hin) as [k A].
  pose proof (assign_stored (vmr_backend_port r) _ _ _ Hk Hnew _ _ A) as G.
  rewrite <- diffAndEmit_backends in G.
  exact (find_key_found _ _ _ _ G (endpoint_of_mk_backend _ _ _)).
Qed.

(** In the run that follows, a key on which no search ends is
    removed. *)
Lemma second_run_removes_unfound (r : resolver) (k : string) (b : backend) :
  NoDup (vmr_lastAdded (fst (diffAndEmit r))) ->
  (forall k, In k (vmr_lastAdded (fst (diffAndEmit r))) ->
             Obj.get k (vmr_backends r) = None) ->
  Obj.get k (vmr_backends (fst (diffAndEmit r))) = Some b ->
  find_key (vmr_backends (fst (diffAndEmit r))) (endpoint_of b) <> Some k ->
  In (EvRemoved k) (snd (diffAndEmit (fst (diffAndEmit r)))).
Proof.
  intros Hk Hnew G Hnf. apply removed_event_iff. split.
  - eapply get_some_in_keys; eauto.
  - destruct (Obj.get k
                (vmr_backends (fst (diffAndEmit (fst (diffAndEmit r))))))
      as [b2|] eqn:G2; auto.
    exfalso. destruct (diffAndEmit_get _ _ _ G2) as (e2 & A2 & _).
    destruct (diffAndEmit_frame r) as (_ & Hd & _). cbv zeta in Hd.
    apply assign_in in A2. rewrite Hd in A2. destruct A2 as [Hin [F|[F _]]].
    + destruct (find_key_some _ _ _ F) as (ob & G' & E).
      assert (ob = b) by congruence. subst ob. congruence.
    + exact (second_run_finds_all r e2 Hk Hnew Hin F).
Qed.

(** C5, as the code has it: let the keys drawn by a run of
    [diffAndEmit] be pairwise distinct and not keys of the current set.
    When the discovery result does not repeat an endpoint that is
    missing from the current set, a second run on the same discovery
    result emits nothing, records nothing as added or removed, and
    leaves [vmr_backends] as the first run made it.  In any case the
    second run emits a [removed] event for every key of the new set on
    which the search for its backend's name and address does not end;
    so when a missing endpoint is reported twice, the second run emits
    a [removed] event for the key drawn for the earlier occurrence. *)
Theorem diffAndEmit_idempotent (r : resolver) :
  NoDup (vmr_lastAdded (fst (diffAndEmit r))) ->
  (forall k, In k (vmr_lastAdded (fst (diffAndEmit r))) ->
             Obj.get k (vmr_backends r) = None) ->
  let r1 := fst (diffAndEmit r) in
  let r2 := fst (diffAndEmit r1) in
  let missing := unknown (vmr_backends r) (vmr_discovered_backends r) in
  (NoDup missing ->
   snd (diffAndEmit r1) = []
   /\ vmr_lastAdded r2 = []
   /\ vmr_lastRemoved r2 = RemovedKeys []
   /\ vmr_backends r2 = vmr_backends r1)
  /\ (forall k b,
        Obj.get k (vmr_backends r1) = Some b ->
        find_key (vmr_backends r1) (endpoint_of b) <> Some k ->
        In (EvRemoved k) (snd (diffAndEmit r1)))
  /\ (forall e i i',
        nth_error missing i = Some e ->
        nth_error missing i' = Some e ->
        i < i' ->
        In (EvRemoved (fresh_key (rng r + i))) (snd (diffAndEmit r1))).
Proof.
  intros Hk Hnew. cbv zeta. split; [|split].
  - intros Hd.
    pose proof Hk as Hk'. pose proof Hnew as Hnew'.
    rewrite diffAndEmit_lastAdded in Hk', Hnew'.
    pose proof (assign_consistent _ _ _ Hd Hk' Hnew') as Hc.
    pose proof (install_find_key (vmr_backend_port r) _ Hc) as Hfind.
    rewrite <- diffAndEmit_backends in Hfind.
    destruct (diffAndEmit_frame r) as (Hport & Hdisc & _). cbv zeta in *.
    destruct (assign_stable _ _ _ (rng r) (rng (fst (diffAndEmit r))) Hfind)
      as [Ha Hu].
    assert (Hb : vmr_backends (fst (diffAndEmit (fst (diffAndEmit r))))
                 = vmr_backends (fst (diffAndEmit r))).
    { rewrite (diffAndEmit_backends (fst (diffAndEmit r))).
      rewrite Hport, Hdisc, Ha. symmetry. apply diffAndEmit_backends. }
    assert (Hadd : vmr_lastAdded (fst (diffAndEmit (fst (diffAndEmit r))))
                   = []).
    { rewrite (diffAndEmit_lastAdded (fst (diffAndEmit r))).
      rewrite Hdisc, Hu. reflexivity. }
    assert (Hev : snd (diffAndEmit (fst (diffAndEmit r))) = []).
    { rewrite diffAndEmit_events, Hadd, Hb, diff_removed_self.
      reflexivity. }
    repeat split; auto.
    change (vmr_lastRemoved (fst (diffAndEmit (fst (diffAndEmit r)))))
      with (RemovedKeys
              (diff_removed (vmr_backends (fst (diffAndEmit r)))
                 (vmr_backends (fst (diffAndEmit (fst (diffAndEmit r))))))).
    now rewrite Hb, diff_removed_self.
  - intros k b G Hnf. eapply second_run_removes_unfound; eauto.
  - intros e i i' Hi Hi' Hlt.
    pose proof Hk as Hk'. pose proof Hnew as Hnew'.
    rewrite diffAndEmit_lastAdded in Hk', Hnew'.
    assert (Hstored : forall j,
               nth_error
                 (unknown (vmr_backends r) (vmr_discovered_backends r)) j
               = Some e ->
               Obj.get (fresh_key (rng r + j))
                 (vmr_backends (fst (diffAndEmit r)))
               = Some (mk_backend (vmr_backend_port r) e
                         (fresh_key (rng r + j)))).
    { intros j Hj. rewrite diffAndEmit_backends.
      apply assign_stored; auto. now apply assign_fresh_nth. }
    assert (Hlen : i' < List.length
                          (unknown (vmr_backends r)
                             (vmr_discovered_backends r)))
      by (apply nth_error_Some; congruence).
    apply (second_run_removes_unfound r _ _ Hk Hnew (Hstored i Hi)).
    rewrite endpoint_of_mk_backend.
    apply (find_key_not_earlier _ e _ (fresh_key (rng r + i'))
             (mk_backend (vmr_backend_port r) e (fresh_key (rng r + i')))).
    + apply diffAndEmit_NoDup.
    + rewrite diffAndEmit_backends. apply assign_precedes; auto.
    + now apply Hstored.
    + apply endpoint_of_mk_backend.
Qed.

(** ** An answer that arrives after [stop()] *)

(** C1, as the code has it: [stop()] in 'running' or 'failed' retracts
    every backend and the machine gets to 'stopped' with an empty
    [vmr_backends], the request made by an earlier tick still
    outstanding.  When that request then fails, nothing is emitted and
    [vmr_backends] stays empty.  When it succeeds and was made by the
    timer of 'failed', its callback calls [S.gotoState] on the handle
    of the state that was left: with an FSM base class that throws
    there, nothing is emitted, [vmr_backends] stays empty and the
    machine stays in 'stopped'.  When it succeeds and was made by the
    timer of 'running', its result is not discarded: [diffAndEmit] runs
    in the 'stopped' state, emits one [added] event per discovered
    endpoint and no [removed] event, and [vmr_backends] is empty
    afterwards only if nothing was discovered. *)
Theorem stale_fetch_after_stop (r : resolver) (n : nat) (c : closure)
    (res : fetch_result) :
  reachable r ->
  fsm_state r = running \/ fsm_state r = failed ->
  nth_error (pending r) n = Some c ->
  issued_by_tick c = true ->
  exists r1 r2,
    step r Stop
    = Some (Returned r1 (map EvRemoved (Obj.keys (vmr_backends r))))
    /\ step r1 Immediate = Some (Returned r2 [])
    /\ fsm_state r2 = stopped
    /\ vmr_backends r2 = []
    /\ nth_error (pending r2) n = Some c
    /\ match res with
       | FetchErr _ =>
           exists r3,
             step r2 (Fetched n res) = Some (Returned r3 [])
             /\ fsm_state r3 = stopped
             /\ vmr_backends r3 = []
       | FetchOk vms =>
           (cl_origin c = FromRunning ->
            exists r3,
              step r2 (Fetched n res)
              = Some (Returned r3
                        (map (fun j => EvAdded (fresh_key j)
                                         (Obj.get (fresh_key j)
                                            (vmr_backends r3)))
                           (seq (rng r) (List.length (discovered vms)))))
              /\ fsm_state r3 = stopped
              /\ (vmr_backends r3 = [] <-> discovered vms = []))
           /\ (cl_origin c = FromFailed ->
               stale_handle_throws = true ->
               exists r3,
                 step r2 (Fetched n res) = Some (Threw r3 [])
                 /\ fsm_state r3 = stopped
                 /\ vmr_backends r3 = [])
       end.
Proof.
  intros Hr Hs Hn Ht.
  pose proof (reachable_keyed _ Hr) as Hk.
  pose proof (reachable_handles _ Hr) as Hh.
  pose (r1 := fst (state_stopping
                     (set_fsm stopping (S (fsm_handle r))
                        (clearInterval (fsm_handle r) r)))).
  pose (r2 := set_fsm stopped (S (fsm_handle r1)) r1).
  pose proof (state_stopping_events
                (set_fsm stopping (S (fsm_handle r))
                   (clearInterval (fsm_handle r) r)) Hk) as Hev.
  simpl in Hev.
  assert (Hin : isInState running r || isInState failed r = true).
  { unfold isInState. destruct Hs as [-> | ->]; reflexivity. }
  exists r1, r2. split; [|split; [|split; [|split; [|split]]]].
  - simpl. unfold stop. rewrite Hin.
    unfold gotoState. simpl. rewrite Nat.eqb_refl. simpl.
    rewrite <- Hev. reflexivity.
  - simpl. unfold gotoState. simpl. rewrite Nat.eqb_refl. reflexivity.
  - reflexivity.
  - reflexivity.
  - exact Hn.
  - destruct res as [err|vms].
    + eexists. split; [|split].
      * unfold step. change (pending r2) with (pending r). rewrite Hn.
        unfold on_fetched. unfold issued_by_tick in Ht.
        destruct (cl_origin c); [discriminate | reflexivity | reflexivity].
      * reflexivity.
      * reflexivity.
    + split.
      * intros Ho. exact (stale_running_fetch r2 n c vms eq_refl Hn Ho).
      * intros Ho Hstrict.
        destruct (Hh c (or_introl (nth_error_In _ _ Hn))) as [Hle _].
        exists (set_discovered_backends (discovered vms)
                  (clearInterval (cl_handle c)
                     (set_lastPoll None
                        (set_pending (remove_nth n (pending r2)) r2)))).
        split; [|split; reflexivity].
        unfold step. change (pending r2) with (pending r). rewrite Hn.
        unfold on_fetched. rewrite Ho. cbv zeta.
        unfold gotoState. rewrite Hstrict.
        change (fsm_handle
                  (set_discovered_backends (discovered vms)
                     (clearInterval (cl_handle c)
                        (set_lastPoll None
                           (set_pending (remove_nth n (pending r)) r2)))))
          with (S (S (fsm_handle r))).
        destruct (Nat.eqb_spec (cl_handle c) (S (S (fsm_handle r))));
          [lia | reflexivity].
Qed.

End Resolver.

(** ** Worked scenarios

    A concrete entropy source (call [n] returns the bytes [9n], [9n+1],
    ..., [9n+8]), a NIC tag pattern, and two VMs. *)

Definition demo_entropy (call i : nat) : byte :=
  match Byte.of_nat (call * 9 + i) with
  | Some b => b
  | None => x00
  end.

Definition demo_nic_tag_test (tag : string) : bool :=
  String.prefix "manta" tag.

Definition vm_db1 : vm :=
  {| alias := "db1";
     nics := [{| nic_tag := "admin"; ip := "192.168.0.1" |};
              {| nic_tag := "manta"; ip := "10.0.0.1" |}] |}.

Definition vm_db2 : vm :=
  {| alias := "db2";
     nics := [{| nic_tag := "manta"; ip := "10.0.0.2" |}] |}.

Definition db1 : endpoint := {| name := "db1"; address := "10.0.0.1" |}.
Definition db2 : endpoint := {| name := "db2"; address := "10.0.0.2" |}.

Definition key0 : string := "AAECAwQFBgcI".
Definition key1 : string := "CQoLDA0ODxAR".

(** The event loop of the scenarios: port 5432, stale handles throw. *)
Definition demo_run (inputs : list input)
  : option (resolver * list event) :=
  run demo_entropy demo_nic_tag_test true (VmapiResolver 5432) [] inputs.

Definition demo_state (inputs : list input) : resolver :=
  match demo_run inputs with
  | Some (r, _) => r
  | None => VmapiResolver 5432
  end.

(** Started, first answer [db1; db2]: 'running' with two backends. *)
Definition demo_running : resolver :=
  Eval vm_compute in
    demo_state [Start; Fetched 0 (FetchOk [vm_db1; vm_db2])].

(** The same, then a tick: a request is outstanding. *)
Definition demo_polling : resolver :=
  Eval vm_compute in
    demo_state [Start; Fetched 0 (FetchOk [vm_db1; vm_db2]); Tick 0 1000].

(** Started, request outstanding. *)
Definition demo_starting : resolver :=
  Eval vm_compute in demo_state [Start].

(** Started with [db1], which then disappears and comes back. *)
Definition demo_one : resolver :=
  Eval vm_compute in demo_state [Start; Fetched 0 (FetchOk [vm_db1])].

Definition demo_gone : resolver :=
  Eval vm_compute in
    demo_state [Start; Fetched 0 (FetchOk [vm_db1]);
                Tick 0 1000; Fetched 0 (FetchOk [])].

Definition demo_back : resolver :=
  Eval vm_compute in
    demo_state [Start; Fetched 0 (FetchOk [vm_db1]);
                Tick 0 1000; Fetched 0 (FetchOk []);
                Tick 0 2000; Fetched 0 (FetchOk [vm_db1])].

(** A fresh resolver holding a discovery result, as [state_running]
    finds it when it calls [diffAndEmit]. *)
Definition demo_discovered (d : list endpoint) : resolver :=
  set_discovered_backends d (VmapiResolver 5432).

(** Started, first request failed, first tick of the retry timer. *)
Definition demo_retrying : resolver :=
  Eval vm_compute in
    demo_state [Start; Fetched 0 (FetchErr "ECONNREFUSED"); Tick 0 1000].

(** The same after [stop()] and the immediate of 'stopping': back in
    'stopped', the retry's request still outstanding. *)
Definition demo_abandoned : resolver :=
  Eval vm_compute in
    demo_state [Start; Fetched 0 (FetchErr "ECONNREFUSED"); Tick 0 1000;
                Stop; Immediate].

Lemma demo_reachable (inputs : list input) (r : resolver)
    (evs : list event) :
  demo_run inputs = Some (r, evs) ->
  reachable demo_entropy demo_nic_tag_test true r.
Proof.
  intros H. exists 5432%Z. eapply run_steps. exact H.
Qed.

Lemma demo_running_reachable :
  reachable demo_entropy demo_nic_tag_test true demo_running.
Proof.
  eapply (demo_reachable [Start; Fetched 0 (FetchOk [vm_db1; vm_db2])]).
  vm_compute. reflexivity.
Qed.

Lemma demo_polling_reachable :
  reachable demo_entropy demo_nic_tag_test true demo_polling.
Proof.
  eapply (demo_reachable
            [Start; Fetched 0 (FetchOk [vm_db1; vm_db2]); Tick 0 1000]).
  vm_compute. reflexivity.
Qed.

Lemma demo_retrying_reachable :
  reachable demo_entropy demo_nic_tag_test true demo_retrying.
Proof.
  eapply (demo_reachable
            [Start; Fetched 0 (FetchErr "ECONNREFUSED"); Tick 0 1000]).
  vm_compute. reflexivity.
Qed.

Lemma demo_abandoned_reachable :
  reachable demo_entropy demo_nic_tag_test true demo_abandoned.
Proof.
  eapply (demo_reachable
            [Start; Fetched 0 (FetchErr "ECONNREFUSED"); Tick 0 1000;
             Stop; Immediate]).
  vm_compute. reflexivity.
Qed.

Lemma demo_starting_reachable :
  reachable demo_entropy demo_nic_tag_test true demo_starting.
Proof. eapply (demo_reachable [Start]). vm_compute. reflexivity. Qed.

Lemma demo_one_reachable :
  reachable demo_entropy demo_nic_tag_test true demo_one.
Proof.
  eapply (demo_reachable [Start; Fetched 0 (FetchOk [vm_db1])]).
  vm_compute. reflexivity.
Qed.

Lemma demo_one_gone :
  steps demo_entropy demo_nic_tag_test true demo_one demo_gone.
Proof.
  eapply (run_steps _ _ _ [Tick 0 1000; Fetched 0 (FetchOk [])] _ _ []).
  vm_compute. reflexivity.
Qed.

Lemma demo_gone_back :
  steps demo_entropy demo_nic_tag_test true demo_gone demo_back.
Proof.
  eapply (run_steps _ _ _ [Tick 0 2000; Fetched 0 (FetchOk [vm_db1])] _ _ []).
  vm_compute. reflexivity.
Qed.

(** The scenarios of the specification. *)

Example first_reconciliation :
  demo_run [Start; Fetched 0 (FetchOk [vm_db1])]
  = Some (demo_one, [EvAdded key0 (Some (mk_backend 5432 db1 key0))])
  /\ vmr_backends demo_one = [(key0, mk_backend 5432 db1 key0)]
  /\ fsm_state demo_one = running.
Proof. split; [vm_compute; reflexivity | split; reflexivity]. Qed.

Example second_poll_adds_db2 :
  exists r,
    demo_run [Start; Fetched 0 (FetchOk [vm_db1]); Tick 0 1000;
              Fetched 0 (FetchOk [vm_db1; vm_db2])]
    = Some (r, [EvAdded key0 (Some (mk_backend 5432 db1 key0));
                EvAdded key1 (Some (mk_backend 5432 db2 key1))])
    /\ Obj.keys (vmr_backends r) = [key0; key1].
Proof. eexists. split; [vm_compute; reflexivity | reflexivity]. Qed.

Example failed_start_recovers :
  exists r1 r2,
    demo_run [Start; Fetched 0 (FetchErr "ECONNREFUSED")] = Some (r1, [])
    /\ fsm_state r1 = failed
    /\ demo_run [Start; Fetched 0 (FetchErr "ECONNREFUSED"); Tick 0 1000;
                 Fetched 0 (FetchOk [vm_db1; vm_db2])]
       = Some (r2, [EvAdded key0 (Some (mk_backend 5432 db1 key0));
                    EvAdded key1 (Some (mk_backend 5432 db2 key1))])
    /\ fsm_state r2 = running
    /\ intervals r2 = [{| cl_origin := FromRunning; cl_handle := 3 |}].
Proof.
  do 2 eexists. split; [vm_compute; reflexivity|]. split; [reflexivity|].
  split; [vm_compute; reflexivity|]. split; reflexivity.
Qed.

(** A pair already in the set and reported twice keeps its one key. *)
Example known_pair_reported_twice :
  exists r,
    demo_run [Start; Fetched 0 (FetchOk [vm_db1]); Tick 0 1000;
              Fetched 0 (FetchOk [vm_db1; vm_db1])]
    = Some (r, [EvAdded key0 (Some (mk_backend 5432 db1 key0))])
    /\ vmr_discovered_backends r = [db1; db1]
    /\ vmr_backends r = [(key0, mk_backend 5432 db1 key0)].
Proof.
  eexists. split; [vm_compute; reflexivity|]. split; reflexivity.
Qed.

(** [start()] and [stop()] in a state that does not allow them fail
    their assertion. *)
Example stop_while_stopped_throws :
  step demo_entropy demo_nic_tag_test true (VmapiResolver 5432) Stop
  = Some (Threw (VmapiResolver 5432) []).
Proof. reflexivity. Qed.

(** ** The theorems on the scenarios *)

(** [stop()] with a poll outstanding, which then answers [db1; db2]. *)
Lemma stale_fetch_after_stop_witness :
  (reachable demo_entropy demo_nic_tag_test true demo_polling
   /\ fsm_state demo_polling = running
   /\ nth_error (pending demo_polling) 0
      = Some {| cl_origin := FromRunning; cl_handle := 2 |}
   /\ exists r2 r3 evs,
        fsm_state r2 = stopped
        /\ vmr_backends r2 = []
        /\ step demo_entropy demo_nic_tag_test true r2
             (Fetched 0 (FetchOk [vm_db1; vm_db2]))
           = Some (Returned r3 evs)
        /\ List.length evs = 2
        /\ fsm_state r3 = stopped)
  /\ (reachable demo_entropy demo_nic_tag_test true demo_retrying
      /\ fsm_state demo_retrying = failed
      /\ nth_error (pending demo_retrying) 0
         = Some {| cl_origin := FromFailed; cl_handle := 2 |}
      /\ exists r2 r3,
           fsm_state r2 = stopped
           /\ vmr_backends r2 = []
           /\ step demo_entropy demo_nic_tag_test true r2
                (Fetched 0 (FetchOk [vm_db1; vm_db2]))
              = Some (Threw r3 [])
           /\ fsm_state r3 = stopped
           /\ vmr_backends r3 = []).
Proof.
  split.
  - split; [exact demo_polling_reachable|].
    split; [reflexivity|]. split; [reflexivity|].
    destruct (stale_fetch_after_stop demo_entropy demo_nic_tag_test true
                demo_polling 0 {| cl_origin := FromRunning; cl_handle := 2 |}
                (FetchOk [vm_db1; vm_db2]) demo_polling_reachable
                (or_introl eq_refl) eq_refl eq_refl)
      as (r1 & r2 & _ & _ & Hs & Hb & _ & H & _).
    destruct (H eq_refl) as (r3 & Hstep & Hs3 & _).
    exists r2, r3. eexists. repeat split; eauto.
  - split; [exact demo_retrying_reachable|].
    split; [reflexivity|]. split; [reflexivity|].
    destruct (stale_fetch_after_stop demo_entropy demo_nic_tag_test true
                demo_retrying 0 {| cl_origin := FromFailed; cl_handle := 2 |}
                (FetchOk [vm_db1; vm_db2]) demo_retrying_reachable
                (or_intror eq_refl) eq_refl eq_refl)
      as (r1 & r2 & _ & _ & Hs & Hb & _ & _ & H).
    destruct (H eq_refl eq_refl) as (r3 & Hstep & Hs3 & Hb3).
    exists r2, r3. repeat split; auto.
Defined.

Lemma count_is_undefined_witness :
  reachable demo_entropy demo_nic_tag_test true demo_running
  /\ List.length (Obj.keys (vmr_backends demo_running)) = 2
  /\ Getters.count demo_running = JUndefined.
Proof.
  split; [exact demo_running_reachable|]. split; [reflexivity|].
  exact (proj1 (count_is_undefined demo_entropy demo_nic_tag_test true
                  demo_running demo_running_reachable)).
Defined.

Lemma getLastError_is_undefined_witness :
  reachable demo_entropy demo_nic_tag_test true demo_starting
  /\ exists o,
       step demo_entropy demo_nic_tag_test true demo_starting
         (Fetched 0 (FetchErr "ECONNREFUSED")) = Some o
       /\ fsm_state (outcome_state o) = failed
       /\ Getters.getLastError (outcome_state o) = JUndefined.
Proof.
  split; [exact demo_starting_reachable|].
  eexists. split; [vm_compute; reflexivity|]. split; [reflexivity|].
  exact (proj1 (proj2 (getLastError_is_undefined demo_entropy
                         demo_nic_tag_test true demo_starting
                         demo_starting_reachable)
                  0 "ECONNREFUSED"%string _ eq_refl)).
Defined.

(** With [db1] advertised under [key0]: an answer that reports [db1]
    and the new [db2], and one that reports the new [db2] twice, before
    [diffAndEmit] runs. *)
Definition demo_db2_new : resolver :=
  set_discovered_backends [db1; db2] demo_one.

Definition demo_db2_twice : resolver :=
  set_discovered_backends [db2; db2] demo_one.

Definition key2 : string := "EhMUFRYXGBka".

Lemma diffAndEmit_one_key_per_known_pair_witness :
  let r' := fst (diffAndEmit demo_entropy demo_db2_twice) in
  Obj.keys (vmr_backends demo_db2_twice) = [key0]
  /\ unknown (vmr_backends demo_db2_twice)
       (vmr_discovered_backends demo_db2_twice) = [db2; db2]
  /\ vmr_lastAdded r' = [key1; key2]
  /\ Obj.get key1 (vmr_backends r') = Some (mk_backend 5432 db2 key1)
  /\ key2 <> key1
  /\ Obj.get key2 (vmr_backends r') = Some (mk_backend 5432 db2 key2).
Proof.
  cbv zeta. split; [reflexivity|]. split; [reflexivity|].
  split; [reflexivity|].
  assert (Hk : NoDup (vmr_lastAdded
                        (fst (diffAndEmit demo_entropy demo_db2_twice)))).
  { vm_compute. repeat constructor; simpl; intuition discriminate. }
  assert (Hnew : forall k,
             In k (vmr_lastAdded
                     (fst (diffAndEmit demo_entropy demo_db2_twice))) ->
             Obj.get k (vmr_backends demo_db2_twice) = None).
  { intros k [<-|[<-|[]]]; reflexivity. }
  destruct (diffAndEmit_one_key_per_known_pair demo_entropy demo_db2_twice)
    as (_ & _ & _ & H).
  destruct (H Hk Hnew db2 0 eq_refl) as [H1 H2].
  destruct (H2 1 eq_refl (fun E => O_S _ (eq_sym E))) as [Hne H3].
  split; [exact H1|]. split; [exact Hne | exact H3].
Defined.

Lemma diffAndEmit_idempotent_witness :
  let r1 := fst (diffAndEmit demo_entropy demo_db2_new) in
  let r1' := fst (diffAndEmit demo_entropy demo_db2_twice) in
  Obj.keys (vmr_backends demo_one) = [key0]
  /\ vmr_lastAdded r1 = [key1]
  /\ snd (diffAndEmit demo_entropy r1) = []
  /\ vmr_backends (fst (diffAndEmit demo_entropy r1)) = vmr_backends r1
  /\ vmr_lastAdded r1' = [key1; key2]
  /\ In (EvRemoved key1) (snd (diffAndEmit demo_entropy r1')).
Proof.
  cbv zeta. split; [reflexivity|]. split; [reflexivity|].
  assert (Hk : NoDup (vmr_lastAdded
                        (fst (diffAndEmit demo_entropy demo_db2_new)))).
  { vm_compute. repeat constructor; simpl; intuition discriminate. }
  assert (Hnew : forall k,
             In k (vmr_lastAdded
                     (fst (diffAndEmit demo_entropy demo_db2_new))) ->
             Obj.get k (vmr_backends demo_db2_new) = None).
  { intros k [<-|[]]. reflexivity. }
  assert (Hd : NoDup (unknown (vmr_backends demo_db2_new)
                        (vmr_discovered_backends demo_db2_new))).
  { vm_compute. repeat constructor; simpl; intuition discriminate. }
  destruct (diffAndEmit_idempotent demo_entropy demo_db2_new Hk Hnew)
    as (Hpos & _ & _).
  destruct (Hpos Hd) as (He & _ & _ & Hb).
  split; [exact He|]. split; [exact Hb|]. split; [reflexivity|].
  assert (Hk' : NoDup (vmr_lastAdded
                         (fst (diffAndEmit demo_entropy demo_db2_twice)))).
  { vm_compute. repeat constructor; simpl; intuition discriminate. }
  assert (Hnew' : forall k,
             In k (vmr_lastAdded
                     (fst (diffAndEmit demo_entropy demo_db2_twice))) ->
             Obj.get k (vmr_backends demo_db2_twice) = None).
  { intros k [<-|[<-|[]]]; reflexivity. }
  destruct (diffAndEmit_idempotent demo_entropy demo_db2_twice Hk' Hnew')
    as (_ & _ & Hneg).
  exact (Hneg db2 0 1 eq_refl eq_refl (le_n 1)).
Defined.

Lemma rediscovered_key_is_new_witness :
  Obj.get key0 (vmr_backends demo_one)
  = Some (mk_backend 5432 db1 key0)
  /\ vmr_backends demo_gone = []
  /\ Obj.get key1 (vmr_backends demo_back)
     = Some (mk_backend 5432 db1 key1)
  /\ key1 <> key0.
Proof.
  split; [reflexivity|]. split; [reflexivity|]. split; [reflexivity|].
  apply (rediscovered_key_is_new demo_entropy demo_nic_tag_test true
           demo_one demo_gone demo_back key0 key1
           (mk_backend 5432 db1 key0) (mk_backend 5432 db1 key1)).
  - exact demo_one_reachable.
  - reflexivity.
  - exact demo_one_gone.
  - intros k1 b1 H. discriminate H.
  - exact demo_gone_back.
  - reflexivity.
  - reflexivity.
  - vm_compute. repeat constructor; simpl; intuition discriminate.
Defined.

Lemma stop_running_retracts_all_witness :
  reachable demo_entropy demo_nic_tag_test true demo_running
  /\ fsm_state demo_running = running
  /\ exists r1 r2,
       step demo_entropy demo_nic_tag_test true demo_running Stop
       = Some (Returned r1 [EvRemoved key0; EvRemoved key1])
       /\ Getters.list r1 = []
       /\ step demo_entropy demo_nic_tag_test true r1 Immediate
          = Some (Returned r2 [])
       /\ fsm_state r2 = stopped
       /\ Getters.list r2 = [].
Proof.
  split; [exact demo_running_reachable|]. split; [reflexivity|].
  destruct (stop_running_retracts_all demo_entropy demo_nic_tag_test true
              demo_running demo_running_reachable eq_refl)
    as (r1 & r2 & H1 & _ & _ & H2 & H3 & H4 & H5).
  exists r1, r2. repeat split; assumption.
Defined.

Lemma running_fetch_failure_is_silent_witness :
  fsm_state demo_polling = running
  /\ exists r',
       step demo_entropy demo_nic_tag_test true demo_polling
         (Fetched 0 (FetchErr "ETIMEDOUT")) = Some (Returned r' [])
       /\ vmr_backends r' = vmr_backends demo_polling
       /\ fsm_state r' = running.
Proof.
  split; [reflexivity|].
  destruct (running_fetch_failure_is_silent demo_entropy demo_nic_tag_test
              true demo_polling 0
              {| cl_origin := FromRunning; cl_handle := 2 |}
              "ETIMEDOUT"%string eq_refl eq_refl eq_refl)
    as (r' & H1 & _ & H2 & _ & _ & H3).
  exists r'. repeat split; assumption.
Defined.

Lemma tick_skipped_while_polling_witness :
  reachable demo_entropy demo_nic_tag_test true demo_polling
  /\ pending demo_polling = [{| cl_origin := FromRunning; cl_handle := 2 |}]
  /\ step demo_entropy demo_nic_tag_test true demo_polling (Tick 0 2000)
     = Some (Returned demo_polling []).
Proof.
  split; [exact demo_polling_reachable|]. split; [reflexivity|].
  apply (proj2 (tick_skipped_while_polling demo_entropy demo_nic_tag_test
                  true demo_polling demo_polling_reachable)
           0 {| cl_origin := FromRunning; cl_handle := 2 |} 2000).
  - reflexivity.
  - exists {| cl_origin := FromRunning; cl_handle := 2 |}.
    split; [now left | reflexivity].
Defined.

(** ** Where the code departs from the specification *)

(** C1 fails: a poll is outstanding when [stop()] is called; the
    machine gets to 'stopped' with an empty [vmr_backends]; the answer
    then arrives and is applied: two [added] events in the 'stopped'
    state, and [vmr_backends] holds two backends. *)
Lemma stale_fetch_is_applied_after_stop :
  exists r evs0 r' evs,
    demo_run [Start; Fetched 0 (FetchOk [vm_db1; vm_db2]); Tick 0 1000;
              Stop; Immediate] = Some (r, evs0)
    /\ fsm_state r = stopped
    /\ vmr_backends r = []
    /\ pending r = [{| cl_origin := FromRunning; cl_handle := 2 |}]
    /\ step demo_entropy demo_nic_tag_test true r
         (Fetched 0 (FetchOk [vm_db1; vm_db2])) = Some (Returned r' evs)
    /\ fsm_state r' = stopped
    /\ evs = [EvAdded "EhMUFRYXGBka"
                (Some (mk_backend 5432 db1 "EhMUFRYXGBka"));
              EvAdded "GxwdHh8gISIj"
                (Some (mk_backend 5432 db2 "GxwdHh8gISIj"))]
    /\ Obj.keys (Getters.list r') = ["EhMUFRYXGBka"; "GxwdHh8gISIj"]%string.
Proof.
  do 4 eexists.
  split; [vm_compute; reflexivity|].
  split; [reflexivity|]. split; [reflexivity|]. split; [reflexivity|].
  split; [vm_compute; reflexivity|].
  split; [reflexivity|]. split; reflexivity.
Qed.

(** C4 fails: the first answer reports [db1] twice; [diffAndEmit]
    looks for it in the old set both times, finds nothing, and stores
    it under two keys. *)
Lemma duplicate_new_pair_gets_two_keys :
  exists r evs b0 b1,
    demo_run [Start; Fetched 0 (FetchOk [vm_db1; vm_db1])] = Some (r, evs)
    /\ vmr_discovered_backends r = [db1; db1]
    /\ vmr_backends r = [(key0, b0); (key1, b1)]
    /\ endpoint_of b0 = db1
    /\ endpoint_of b1 = db1
    /\ key0 <> key1.
Proof.
  do 4 eexists.
  split; [vm_compute; reflexivity|].
  split; [reflexivity|]. split; [reflexivity|].
  split; [reflexivity|]. split; [reflexivity|]. discriminate.
Qed.

(** C5 fails: after that first run, a second [diffAndEmit] on the same
    discovery result finds [db1] under the later key both times, and
    emits a [removed] event for the earlier key. *)
Lemma second_run_removes_duplicate_key :
  exists r evs,
    demo_run [Start; Fetched 0 (FetchOk [vm_db1; vm_db1])] = Some (r, evs)
    /\ vmr_discovered_backends r = [db1; db1]
    /\ Obj.keys (vmr_backends r) = [key0; key1]
    /\ snd (diffAndEmit demo_entropy r) = [EvRemoved key0]
    /\ Obj.keys (vmr_backends (fst (diffAndEmit demo_entropy r))) = [key1].
Proof.
  do 2 eexists.
  split; [vm_compute; reflexivity|].
  split; [reflexivity|]. split; [reflexivity|].
  split; vm_compute; reflexivity.
Qed.

(** ** More scenarios *)

(** In 'running' with [db1] and [db2] advertised, an answer that only
    reports [db1], before [diffAndEmit] runs. *)
Definition demo_db2_gone : resolver :=
  set_discovered_backends [db1] demo_running.

(** The same with an answer that reports nothing. *)
Definition demo_all_gone : resolver :=
  set_discovered_backends [] demo_running.

Lemma reconciled_backend_is_discovered_witness :
  let r := demo_discovered [db1; db2] in
  Obj.get key1 (vmr_backends (fst (diffAndEmit demo_entropy r)))
  = Some (mk_backend 5432 db2 key1)
  /\ In db2 (vmr_discovered_backends r)
  /\ be_port (mk_backend 5432 db2 key1) = vmr_backend_port r.
Proof.
  cbv zeta. split; [reflexivity|].
  destruct (reconciled_backend_is_discovered demo_entropy
              (demo_discovered [db1; db2]) key1
              (mk_backend 5432 db2 key1) eq_refl) as (H1 & H2 & _).
  split; assumption.
Defined.

Lemma reported_endpoint_keeps_key_witness :
  find_key (vmr_backends demo_db2_gone) db1 = Some key0
  /\ Obj.get key0
       (vmr_backends (fst (diffAndEmit demo_entropy demo_db2_gone)))
     = Some (mk_backend 5432 db1 key0)
  /\ ~ In (EvRemoved key0) (snd (diffAndEmit demo_entropy demo_db2_gone)).
Proof.
  split; [reflexivity|].
  destruct (reported_endpoint_keeps_key demo_entropy demo_db2_gone db1 key0)
    as (_ & Hnot & Hown).
  - now left.
  - reflexivity.
  - split; [|exact Hnot]. apply Hown. intros k' [].
Defined.

Lemma removed_key_was_unmatched_witness :
  snd (diffAndEmit demo_entropy demo_db2_gone) = [EvRemoved key1]
  /\ Obj.get key1 (vmr_backends demo_db2_gone)
     = Some (mk_backend 5432 db2 key1)
  /\ Obj.get key1
       (vmr_backends (fst (diffAndEmit demo_entropy demo_db2_gone))) = None
  /\ ~ In db2 (vmr_discovered_backends demo_db2_gone).
Proof.
  split; [reflexivity|]. split; [reflexivity|].
  destruct (removed_key_was_unmatched demo_entropy demo_db2_gone key1)
    as (_ & H2 & _ & H4).
  - vm_compute. now left.
  - split; [exact H2|].
    apply (H4 (mk_backend 5432 db2 key1) eq_refl).
    intros k' ob' G E.
    assert (B : vmr_backends demo_db2_gone
                = [(key0, mk_backend 5432 db1 key0);
                   (key1, mk_backend 5432 db2 key1)]) by reflexivity.
    rewrite B in G. cbn [Obj.get] in G.
    destruct (String.eqb k' key0) eqn:E0.
    + inversion G; subst. discriminate E.
    + destruct (String.eqb k' key1) eqn:E1; [|discriminate].
      now apply String.eqb_eq in E1.
Defined.

Lemma added_event_payload_witness :
  let r := demo_discovered [db1; db2] in
  In (EvAdded key1 (Some (mk_backend 5432 db2 key1)))
    (snd (diffAndEmit demo_entropy r))
  /\ exists e j,
       In e (vmr_discovered_backends r)
       /\ Some (mk_backend 5432 db2 key1)
          = Some (mk_backend (vmr_backend_port r) e key1)
       /\ key1 = fresh_key demo_entropy j.
Proof.
  cbv zeta.
  assert (Hin : In (EvAdded key1 (Some (mk_backend 5432 db2 key1)))
                  (snd (diffAndEmit demo_entropy
                          (demo_discovered [db1; db2]))))
    by (vm_compute; right; now left).
  split; [exact Hin|].
  destruct (added_event_payload demo_entropy (demo_discovered [db1; db2])
              key1 (Some (mk_backend 5432 db2 key1)) Hin)
    as (e & j & H1 & H2 & _ & _ & H5).
  exists e, j. repeat split; assumption.
Defined.

Lemma empty_discovery_removes_all_witness :
  Obj.keys (vmr_backends demo_all_gone) = [key0; key1]
  /\ snd (diffAndEmit demo_entropy demo_all_gone)
     = map EvRemoved (Obj.keys (vmr_backends demo_all_gone))
  /\ vmr_backends (fst (diffAndEmit demo_entropy demo_all_gone)) = [].
Proof.
  split; [reflexivity|].
  destruct (empty_discovery_removes_all demo_entropy demo_all_gone eq_refl)
    as (H1 & H2 & _).
  split; assumption.
Defined.

Lemma discovered_endpoints_all_advertised_witness :
  let r := demo_discovered [db1; db2] in
  exists k,
    Obj.get k (vmr_backends (fst (diffAndEmit demo_entropy r)))
    = Some (mk_backend (vmr_backend_port r) db2 k)
    /\ find_key (vmr_backends (fst (diffAndEmit demo_entropy r))) db2
       = Some k.
Proof.
  cbv zeta.
  apply (discovered_endpoints_all_advertised demo_entropy
           (demo_discovered [db1; db2]) db2).
  - vm_compute. repeat constructor; simpl; intuition discriminate.
  - vm_compute. repeat constructor; simpl; intuition discriminate.
  - intros k _. reflexivity.
  - right. now left.
Defined.

Lemma event_log_replays_to_backends_witness :
  exists r evs,
    demo_run [Start; Fetched 0 (FetchOk [vm_db1; vm_db2]); Tick 0 1000;
              Fetched 0 (FetchOk [vm_db1])] = Some (r, evs)
    /\ replay evs = [key0]
    /\ (forall k, In k (replay evs) <-> In k (Obj.keys (vmr_backends r))).
Proof.
  do 2 eexists. split; [vm_compute; reflexivity|].
  split; [reflexivity|].
  apply (event_log_replays_to_backends demo_entropy demo_nic_tag_test true
           5432
           [Start; Fetched 0 (FetchOk [vm_db1; vm_db2]); Tick 0 1000;
            Fetched 0 (FetchOk [vm_db1])]).
  vm_compute. reflexivity.
Defined.

Lemma one_draw_per_added_event_witness :
  exists r evs,
    demo_run [Start; Fetched 0 (FetchOk [vm_db1]); Tick 0 1000;
              Fetched 0 (FetchOk []); Tick 0 2000;
              Fetched 0 (FetchOk [vm_db1; vm_db2])] = Some (r, evs)
    /\ rng r = 3
    /\ List.length (filter is_added evs) = rng r.
Proof.
  do 2 eexists. split; [vm_compute; reflexivity|].
  split; [reflexivity|].
  apply (one_draw_per_added_event demo_entropy demo_nic_tag_test true 5432
           [Start; Fetched 0 (FetchOk [vm_db1]); Tick 0 1000;
            Fetched 0 (FetchOk []); Tick 0 2000;
            Fetched 0 (FetchOk [vm_db1; vm_db2])]).
  vm_compute. reflexivity.
Defined.

Lemma lifecycle_follows_the_arrows_witness :
  (exists o,
     step demo_entropy demo_nic_tag_test true demo_starting
       (Fetched 0 (FetchErr "ECONNREFUSED")) = Some o
     /\ fsm_state demo_starting = starting
     /\ fsm_state (outcome_state o) = failed
     /\ allowed_transition (fsm_state demo_starting)
          (fsm_state (outcome_state o)) = true)
  /\ (exists o,
        step demo_entropy demo_nic_tag_test true demo_abandoned
          (Fetched 0 (FetchOk [vm_db1; vm_db2])) = Some o
        /\ nth_error (pending demo_abandoned) 0
           = Some {| cl_origin := FromFailed; cl_handle := 2 |}
        /\ fsm_state demo_abandoned = stopped
        /\ fsm_handle demo_abandoned = 4
        /\ fsm_state (outcome_state o) = stopped
        /\ fsm_handle (outcome_state o) = 4).
Proof.
  split.
  - eexists. split; [vm_compute; reflexivity|].
    split; [reflexivity|]. split; [reflexivity|].
    refine (proj1 (lifecycle_follows_the_arrows demo_entropy
                     demo_nic_tag_test true demo_starting
                     (Fetched 0 (FetchErr "ECONNREFUSED")) _ eq_refl
                     demo_starting_reachable _)).
    vm_compute. reflexivity.
  - eexists. split; [vm_compute; reflexivity|].
    split; [reflexivity|]. split; [reflexivity|]. split; [reflexivity|].
    refine (proj2 (lifecycle_follows_the_arrows demo_entropy
                     demo_nic_tag_test true demo_abandoned
                     (Fetched 0 (FetchOk [vm_db1; vm_db2])) _ eq_refl
                     demo_abandoned_reachable _) 0
              (FetchOk [vm_db1; vm_db2])
              {| cl_origin := FromFailed; cl_handle := 2 |}
              eq_refl eq_refl _).
    + vm_compute. reflexivity.
    + vm_compute. discriminate.
Defined.

Lemma timers_match_state_witness :
  fsm_state demo_running = running
  /\ intervals demo_running
     = [{| cl_origin := FromRunning; cl_handle := 2 |}]
  /\ intervals demo_running
     = timers_of (fsm_state demo_running) (fsm_handle demo_running).
Proof.
  split; [reflexivity|]. split; [reflexivity|].
  exact (proj1 (timers_match_state demo_entropy demo_nic_tag_test true
                  demo_running eq_refl demo_running_reachable)).
Defined.

Lemma advertised_backends_well_formed_witness :
  Obj.keys (vmr_backends demo_running) = [key0; key1]
  /\ NoDup (Obj.keys (vmr_backends demo_running))
  /\ be_port (mk_backend 5432 db2 key1) = vmr_backend_port demo_running.
Proof.
  split; [reflexivity|].
  destruct (advertised_backends_well_formed demo_entropy demo_nic_tag_test
              true demo_running demo_running_reachable) as [Hnd H].
  split; [exact Hnd|].
  exact (proj1 (proj2 (H key1 (mk_backend 5432 db2 key1) eq_refl))).
Defined.

Lemma poll_answer_rearms_the_timer_witness :
  exists o r',
    step demo_entropy demo_nic_tag_test true demo_polling
      (Fetched 0 (FetchErr "ETIMEDOUT")) = Some o
    /\ vmr_lastPoll demo_polling = Some 1000
    /\ vmr_lastPoll (outcome_state o) = None
    /\ step demo_entropy demo_nic_tag_test true (outcome_state o)
         (Tick 0 2000) = Some (Returned r' [])
    /\ pending r' = [{| cl_origin := FromRunning; cl_handle := 2 |}].
Proof.
  destruct (poll_answer_rearms_the_timer demo_entropy demo_nic_tag_test
              true demo_polling 0
              {| cl_origin := FromRunning; cl_handle := 2 |}
              (FetchErr "ETIMEDOUT")
              (Returned
                 (set_lastPoll None
                    (set_pending [] demo_polling)) [])
              eq_refl eq_refl eq_refl) as [Hl Ht].
  do 2 eexists. split; [reflexivity|]. split; [reflexivity|].
  split; [exact Hl|]. split.
  - exact (Ht 0 {| cl_origin := FromRunning; cl_handle := 2 |} 2000
             eq_refl).
  - reflexivity.
Defined.

Lemma quiet_inputs_change_nothing_witness :
  exists o,
    step demo_entropy demo_nic_tag_test true demo_running (Tick 0 1000)
    = Some o
    /\ pending (outcome_state o)
       = [{| cl_origin := FromRunning; cl_handle := 2 |}]
    /\ outcome_events o = []
    /\ vmr_backends (outcome_state o) = vmr_backends demo_running.
Proof.
  eexists. split; [vm_compute; reflexivity|]. split; [reflexivity|].
  destruct (quiet_inputs_change_nothing demo_entropy demo_nic_tag_test true
              demo_running (Tick 0 1000) _ eq_refl eq_refl)
    as (H1 & H2 & _).
  split; assumption.
Defined.

Lemma failed_recovers_on_success_witness :
  fsm_state demo_retrying = failed
  /\ exists r' evs,
       step demo_entropy demo_nic_tag_test true demo_retrying
         (Fetched 0 (FetchOk [vm_db1; vm_db2])) = Some (Returned r' evs)
       /\ List.length evs = 2
       /\ fsm_state r' = running
       /\ intervals r' = [{| cl_origin := FromRunning; cl_handle := 3 |}].
Proof.
  split; [reflexivity|].
  destruct (failed_recovers_on_success demo_entropy demo_nic_tag_test true
              demo_retrying 0 {| cl_origin := FromFailed; cl_handle := 2 |}
              [vm_db1; vm_db2] eq_refl eq_refl eq_refl eq_refl eq_refl)
    as (r' & H1 & H2 & _ & _ & _ & H6).
  exists r'. eexists. split; [exact H1|]. split; [reflexivity|].
  split; [exact H2 | exact H6].
Defined.

Lemma stop_cancels_the_timer_witness :
  fsm_state demo_polling = running
  /\ exists r1 r2,
       step demo_entropy demo_nic_tag_test true demo_polling Stop
       = Some (Returned r1 [EvRemoved key0; EvRemoved key1])
       /\ step demo_entropy demo_nic_tag_test true r1 Immediate
          = Some (Returned r2 [])
       /\ intervals r2 = []
       /\ pending r2 = [{| cl_origin := FromRunning; cl_handle := 2 |}]
       /\ vmr_lastPoll r2 = Some 1000.
Proof.
  split; [reflexivity|].
  destruct (stop_cancels_the_timer demo_entropy demo_nic_tag_test true
              demo_polling eq_refl demo_polling_reachable
              (or_introl eq_refl))
    as (r1 & r2 & H1 & _ & H3 & _ & H5 & _ & H7 & H8).
  exists r1, r2. repeat split; assumption.
Defined.

(** [db1] stored twice, under [key0] and then [key1]: the later key is
    found. *)
Lemma find_key_takes_the_last_match_witness :
  find_key
    ([(key0, mk_backend 5432 db1 key0)]
     ++ (key1, mk_backend 5432 db1 key1) :: [])
    db1
  = Some key1.
Proof.
  apply (find_key_takes_the_last_match
           [(key0, mk_backend 5432 db1 key0)] [] key1
           (mk_backend 5432 db1 key1) db1).
  - vm_compute. repeat constructor; simpl; intuition discriminate.
  - reflexivity.
  - intros k' b' [].
Defined.
